(** * PdfViewer: the viewport controller of the PDF preview

    A shallow embedding of [crates/pdf_app/src/components/PdfViewer.tsx]:
    the geometry helpers ([getOverflowState], [clampTranslate],
    [getFitValues]), the animated zoom, the wheel, pointer and keyboard
    handlers and the page-count effect, as functions over an explicit
    component state; and of the remembered directories of [lib/paths.ts]
    and the proposed PDF name of [App.tsx], over strings of code units and
    a local storage passed explicitly.

    Conventions of the embedding.
    - A JavaScript number is an exact rational ([Q]): rounding, [NaN] and
      the infinities are not modelled.  [Date.now()] is an integer number of
      milliseconds ([Z]); [performance.now()] and frame time stamps are
      rationals.
    - React state and the refs that mirror it ([scaleRef], [translateRef],
      [svgDocRef], [currentPageRef], [isFitModeRef]) are one field each of
      [State]: a handler runs to completion, and the mirrors are synchronised
      before the next one starts.
    - What a handler reads from the host (the clock, the bounding rectangle
      of the container) is carried by the event.
    - [Math.pow] with the literal exponent [3] is the cube; the zoom factor
      [Math.pow(0.995, deltaY)] is not a rational function of [deltaY], so
      [Math.pow] is a parameter of the development there. *)

From Stdlib Require Import QArith Qminmax Qabs Qround Lqa ZArith NArith Lia Bool List
  Ascii String.
Import ListNotations.

Local Open Scope Q_scope.

(** ** Numbers *)

Definition Qleb (a b : Q) : bool := Qle_bool a b.
Definition Qltb (a b : Q) : bool := negb (Qle_bool b a).
Definition Qeqb (a b : Q) : bool := Qeq_bool a b.

(** ** Data *)

Record SvgDocument := mkSvgDocument {
  pages : list string;
  width_pt : Q;
  height_pt : Q
}.

Record Viewport := mkViewport {
  width : Q;
  height : Q
}.

Record Translate := mkTranslate {
  x : Q;
  y : Q
}.

Record Overflow := mkOverflow {
  canPanUp : bool;
  canPanDown : bool;
  canPanLeft : bool;
  canPanRight : bool
}.

Record Fit := mkFit {
  fit_scale : Q;
  fit_x : Q;
  fit_y : Q
}.

(** ** Constants *)

Definition EDGE_PADDING : Q := 24.
Definition PAGE_CHANGE_THRESHOLD : Q := 20.
Definition PAGE_CHANGE_COOLDOWN : Z := 150.
Definition ZOOM_ANIMATION_DURATION : Q := 200.

(** ** Geometry *)

(** [getOverflowState]: which way the document can still be panned. *)
Definition getOverflowState (currentScale : Q) (currentTranslate : Translate)
    (doc : option SvgDocument) (viewport : Viewport) : Overflow :=
  match doc with
  | None => mkOverflow false false false false
  | Some doc =>
      let docWidth := width_pt doc * currentScale in
      let docHeight := height_pt doc * currentScale in
      let overflowsHorizontally := Qltb (width viewport) docWidth in
      let overflowsVertically := Qltb (height viewport) docHeight in
      let atTop := Qleb EDGE_PADDING (y currentTranslate) in
      let atBottom :=
        Qleb (y currentTranslate) (height viewport - docHeight - EDGE_PADDING) in
      let atLeft := Qleb EDGE_PADDING (x currentTranslate) in
      let atRight :=
        Qleb (x currentTranslate) (width viewport - docWidth - EDGE_PADDING) in
      mkOverflow (overflowsVertically && negb atTop)
                 (overflowsVertically && negb atBottom)
                 (overflowsHorizontally && negb atLeft)
                 (overflowsHorizontally && negb atRight)
  end.

(** [clampTranslate]: centre the document on an axis where it fits, keep it
    within the padded bounds where it does not. *)
Definition clampTranslate (x y currentScale : Q) (doc : option SvgDocument)
    (viewport : Viewport) : Translate :=
  match doc with
  | None => mkTranslate 0 0
  | Some doc =>
      let docWidth := width_pt doc * currentScale in
      let docHeight := height_pt doc * currentScale in
      let clampedX :=
        if Qleb docWidth (width viewport)
        then (width viewport - docWidth) / 2
        else
          let minX := width viewport - docWidth - EDGE_PADDING in
          let maxX := EDGE_PADDING in
          Qmin maxX (Qmax minX x) in
      let clampedY :=
        if Qleb docHeight (height viewport)
        then (height viewport - docHeight) / 2
        else
          let minY := height viewport - docHeight - EDGE_PADDING in
          let maxY := EDGE_PADDING in
          Qmin maxY (Qmax minY y) in
      mkTranslate clampedX clampedY
  end.

(** [getFitValues]: the scale and position that fit the page in the
    viewport, or nothing without a document or with an empty viewport. *)
Definition getFitValues (doc : option SvgDocument) (viewport : Viewport)
    : option Fit :=
  match doc with
  | None => None
  | Some doc =>
      if Qeqb (width viewport) 0 || Qeqb (height viewport) 0 then None
      else
        let padding := EDGE_PADDING * 2 in
        let scaleX := (width viewport - padding) / width_pt doc in
        let scaleY := (height viewport - padding) / height_pt doc in
        let newScale := Qmin scaleX scaleY in
        let docWidth := width_pt doc * newScale in
        let docHeight := height_pt doc * newScale in
        let x := (width viewport - docWidth) / 2 in
        let y := (height viewport - docHeight) / 2 in
        Some (mkFit newScale x y)
  end.

(** ** Component state *)

(** The closure of one [animateZoom] call: what its [animate] callback
    captured. *)
Record Animation := mkAnimation {
  startScale : Q;
  startX : Q;
  startY : Q;
  startTime : Q;
  targetScale : Q;
  targetX : Q;
  targetY : Q;
  duration : Q
}.

Record State := mkState {
  svgDoc : option SvgDocument;        (* the prop, and [svgDocRef] *)
  viewport : Viewport;                (* what [getViewport] reads *)
  currentPage : Z;
  scale : Q;
  translate : Translate;
  isFitMode : bool;
  isDragging : bool;
  lastPointer : Translate;
  pageChangeAccumulator : Q;
  lastPageChangeTime : Z;
  zoomAnimation : option Animation;   (* [zoomAnimationRef]: the pending frame *)
  fitScheduled : bool                 (* the frame requested when the document changed *)
}.

Definition setSvgDoc (d : option SvgDocument) (s : State) : State :=
  mkState d (viewport s) (currentPage s) (scale s) (translate s) (isFitMode s)
    (isDragging s) (lastPointer s) (pageChangeAccumulator s)
    (lastPageChangeTime s) (zoomAnimation s) (fitScheduled s).

Definition setViewport (v : Viewport) (s : State) : State :=
  mkState (svgDoc s) v (currentPage s) (scale s) (translate s) (isFitMode s)
    (isDragging s) (lastPointer s) (pageChangeAccumulator s)
    (lastPageChangeTime s) (zoomAnimation s) (fitScheduled s).

Definition setCurrentPage (p : Z) (s : State) : State :=
  mkState (svgDoc s) (viewport s) p (scale s) (translate s) (isFitMode s)
    (isDragging s) (lastPointer s) (pageChangeAccumulator s)
    (lastPageChangeTime s) (zoomAnimation s) (fitScheduled s).

Definition setScale (q : Q) (s : State) : State :=
  mkState (svgDoc s) (viewport s) (currentPage s) q (translate s) (isFitMode s)
    (isDragging s) (lastPointer s) (pageChangeAccumulator s)
    (lastPageChangeTime s) (zoomAnimation s) (fitScheduled s).

Definition setTranslate (t : Translate) (s : State) : State :=
  mkState (svgDoc s) (viewport s) (currentPage s) (scale s) t (isFitMode s)
    (isDragging s) (lastPointer s) (pageChangeAccumulator s)
    (lastPageChangeTime s) (zoomAnimation s) (fitScheduled s).

Definition setIsFitMode (b : bool) (s : State) : State :=
  mkState (svgDoc s) (viewport s) (currentPage s) (scale s) (translate s) b
    (isDragging s) (lastPointer s) (pageChangeAccumulator s)
    (lastPageChangeTime s) (zoomAnimation s) (fitScheduled s).

Definition setIsDragging (b : bool) (s : State) : State :=
  mkState (svgDoc s) (viewport s) (currentPage s) (scale s) (translate s)
    (isFitMode s) b (lastPointer s) (pageChangeAccumulator s)
    (lastPageChangeTime s) (zoomAnimation s) (fitScheduled s).

Definition setLastPointer (t : Translate) (s : State) : State :=
  mkState (svgDoc s) (viewport s) (currentPage s) (scale s) (translate s)
    (isFitMode s) (isDragging s) t (pageChangeAccumulator s)
    (lastPageChangeTime s) (zoomAnimation s) (fitScheduled s).

Definition setPageChangeAccumulator (q : Q) (s : State) : State :=
  mkState (svgDoc s) (viewport s) (currentPage s) (scale s) (translate s)
    (isFitMode s) (isDragging s) (lastPointer s) q
    (lastPageChangeTime s) (zoomAnimation s) (fitScheduled s).

Definition setLastPageChangeTime (t : Z) (s : State) : State :=
  mkState (svgDoc s) (viewport s) (currentPage s) (scale s) (translate s)
    (isFitMode s) (isDragging s) (lastPointer s) (pageChangeAccumulator s)
    t (zoomAnimation s) (fitScheduled s).

Definition setZoomAnimation (a : option Animation) (s : State) : State :=
  mkState (svgDoc s) (viewport s) (currentPage s) (scale s) (translate s)
    (isFitMode s) (isDragging s) (lastPointer s) (pageChangeAccumulator s)
    (lastPageChangeTime s) a (fitScheduled s).

Definition setFitScheduled (b : bool) (s : State) : State :=
  mkState (svgDoc s) (viewport s) (currentPage s) (scale s) (translate s)
    (isFitMode s) (isDragging s) (lastPointer s) (pageChangeAccumulator s)
    (lastPageChangeTime s) (zoomAnimation s) b.

(** [numPages] as the render computes it: [svgDoc?.pages.length ?? 0]. *)
Definition numPages (s : State) : Z :=
  match svgDoc s with
  | Some d => Z.of_nat (List.length (pages d))
  | None => 0%Z
  end.

(** [svgDocRef.current?.pages.length ?? 1], as the handlers compute it. *)
Definition pagesLengthOr1 (s : State) : Z :=
  match svgDoc s with
  | Some d => Z.of_nat (List.length (pages d))
  | None => 1%Z
  end.

(** The state of a freshly mounted viewer (the application mounts it
    without a document). *)
Definition initialState (v : Viewport) : State :=
  mkState None v 1%Z 1 (mkTranslate 0 0) true false (mkTranslate 0 0) 0 0%Z
    None false.

(** ** Fit and animated zoom *)

(** [fitToViewport]: fit at once; nothing changes when there is no fit. *)
Definition fitToViewport (s : State) : State :=
  match getFitValues (svgDoc s) (viewport s) with
  | Some fit =>
      setTranslate (mkTranslate (fit_x fit) (fit_y fit))
        (setScale (fit_scale fit) s)
  | None => s
  end.

(** [animateZoom]: a pending animation is replaced; the start values are
    captured from the state, [now] is [performance.now()]. *)
Definition animateZoom (targetScale targetX targetY duration now : Q)
    (s : State) : State :=
  let startScale := scale s in
  let startX := x (translate s) in
  let startY := y (translate s) in
  let startTime := now in
  setZoomAnimation
    (Some (mkAnimation startScale startX startY startTime
             targetScale targetX targetY duration)) s.

(** [animate]: one frame of the animation [a], at time stamp [currentTime]. *)
Definition animate (a : Animation) (currentTime : Q) (s : State) : State :=
  let elapsed := currentTime - startTime a in
  let progress := Qmin (elapsed / duration a) 1 in
  let eased := 1 - (1 - progress) ^ 3 in
  let currentScale := startScale a + (targetScale a - startScale a) * eased in
  let currentX := startX a + (targetX a - startX a) * eased in
  let currentY := startY a + (targetY a - startY a) * eased in
  let s := setTranslate (mkTranslate currentX currentY) (setScale currentScale s) in
  if Qltb progress 1
  then setZoomAnimation (Some a) s
  else setZoomAnimation None s.

(** The effect on [numPages, currentPage]: back to page 1 when the current
    page exceeds the new page count. *)
Definition resetPageEffect (s : State) : State :=
  if ((numPages s <? currentPage s) && (0 <? numPages s))%Z
  then setCurrentPage 1 s
  else s.

(** The effect on [svgDoc]: request a frame that fits the new document. *)
Definition fitOnLoadEffect (s : State) : State :=
  match svgDoc s with
  | Some _ => setFitScheduled true s
  | None => s
  end.

(** The [ResizeObserver] callback: fit again in fit mode, clamp otherwise. *)
Definition resizeObserver (s : State) : State :=
  if isFitMode s then fitToViewport s
  else
    let currentScale := scale s in
    let currentTranslate := translate s in
    let clamped :=
      clampTranslate (x currentTranslate) (y currentTranslate) currentScale
        (svgDoc s) (viewport s) in
    setTranslate clamped s.

(** ** Events *)

Module WheelEvent.
Record t := mk {
  ctrlKey : bool;
  deltaX : Q;
  deltaY : Q;
  deltaMode : Z;
  clientX : Q;
  clientY : Q
}.
End WheelEvent.

Module PointerEvent.
Record t := mk {
  button : Z;
  targetClosestButton : bool;   (* [target.closest("button")] is not null *)
  clientX : Q;
  clientY : Q
}.
End PointerEvent.

Module KeyboardEvent.
Record t := mk {
  key : string;
  metaKey : bool;
  ctrlKey : bool
}.
End KeyboardEvent.

(** [container.getBoundingClientRect()]. *)
Record DOMRect := mkDOMRect {
  left : Q;
  top : Q
}.

(** The two guards of the wheel handler that let an event pan. *)
Definition wheelPansX (e : WheelEvent.t) (overflow : Overflow) : bool :=
  negb (Qeqb (WheelEvent.deltaX e) 0)
  && ((Qltb 0 (WheelEvent.deltaX e) && canPanRight overflow)
      || (Qltb (WheelEvent.deltaX e) 0 && canPanLeft overflow)).

Definition wheelPansY (e : WheelEvent.t) (overflow : Overflow) : bool :=
  negb (Qeqb (WheelEvent.deltaY e) 0)
  && ((Qltb 0 (WheelEvent.deltaY e) && canPanDown overflow)
      || (Qltb (WheelEvent.deltaY e) 0 && canPanUp overflow)).

(** [goToPrevPage] and [goToNextPage]. *)
Definition goToPrevPage (s : State) : State :=
  setCurrentPage (Z.max (currentPage s - 1) 1) s.

Definition goToNextPage (s : State) : State :=
  setCurrentPage (Z.min (currentPage s + 1) (pagesLengthOr1 s)) s.

(** [handleZoomIn], [handleZoomOut] and [handleFit]; [now] is the
    [performance.now()] that [animateZoom] reads. *)
Definition handleZoomIn (now : Q) (s : State) : State :=
  let s := setIsFitMode false s in
  let currentScale := scale s in
  let currentTranslate := translate s in
  let newScale := Qmin 4 (currentScale * (5 # 4)) in
  let centerX := width (viewport s) / 2 in
  let centerY := height (viewport s) / 2 in
  let scaleRatio := newScale / currentScale in
  let newX := centerX - (centerX - x currentTranslate) * scaleRatio in
  let newY := centerY - (centerY - y currentTranslate) * scaleRatio in
  let clamped := clampTranslate newX newY newScale (svgDoc s) (viewport s) in
  animateZoom newScale (x clamped) (y clamped) ZOOM_ANIMATION_DURATION now s.

Definition handleZoomOut (now : Q) (s : State) : State :=
  let s := setIsFitMode false s in
  let currentScale := scale s in
  let currentTranslate := translate s in
  let newScale := Qmax (1 # 10) (currentScale / (5 # 4)) in
  let centerX := width (viewport s) / 2 in
  let centerY := height (viewport s) / 2 in
  let scaleRatio := newScale / currentScale in
  let newX := centerX - (centerX - x currentTranslate) * scaleRatio in
  let newY := centerY - (centerY - y currentTranslate) * scaleRatio in
  let clamped := clampTranslate newX newY newScale (svgDoc s) (viewport s) in
  animateZoom newScale (x clamped) (y clamped) ZOOM_ANIMATION_DURATION now s.

Definition handleFit (now : Q) (s : State) : State :=
  let s := setIsFitMode true s in
  match getFitValues (svgDoc s) (viewport s) with
  | Some fit =>
      animateZoom (fit_scale fit) (fit_x fit) (fit_y fit)
        ZOOM_ANIMATION_DURATION now s
  | None => s
  end.

(** [handlePointerDown], [handlePointerMove], [handlePointerUp]. *)
Definition handlePointerDown (e : PointerEvent.t) (s : State) : State :=
  if negb (PointerEvent.button e =? 0)%Z then s
  else if PointerEvent.targetClosestButton e then s
  else
    setLastPointer (mkTranslate (PointerEvent.clientX e) (PointerEvent.clientY e))
      (setIsDragging true s).

Definition handlePointerMove (e : PointerEvent.t) (s : State) : State :=
  if negb (isDragging s) then s
  else
    let dx := PointerEvent.clientX e - x (lastPointer s) in
    let dy := PointerEvent.clientY e - y (lastPointer s) in
    let s :=
      setLastPointer
        (mkTranslate (PointerEvent.clientX e) (PointerEvent.clientY e)) s in
    let currentTranslate := translate s in
    let currentScale := scale s in
    let newX := x currentTranslate + dx in
    let newY := y currentTranslate + dy in
    setTranslate (clampTranslate newX newY currentScale (svgDoc s) (viewport s)) s.

Definition handlePointerUp (s : State) : State :=
  setIsDragging false s.

(** [handleKeyDown]; [isInputFocused] tells whether the active element is a
    text area or an input, [now] is [performance.now()]. *)
Definition handleKeyDown (e : KeyboardEvent.t) (isInputFocused : bool)
    (now : Q) (s : State) : State :=
  if isInputFocused then s
  else
    let isMeta := KeyboardEvent.metaKey e || KeyboardEvent.ctrlKey e in
    let key := KeyboardEvent.key e in
    if (key =? "ArrowLeft")%string || (key =? "ArrowUp")%string then
      setCurrentPage (Z.max (currentPage s - 1) 1) s
    else if (key =? "ArrowRight")%string || (key =? "ArrowDown")%string then
      setCurrentPage (Z.min (currentPage s + 1) (pagesLengthOr1 s)) s
    else if (key =? "Home")%string then
      setCurrentPage 1 s
    else if (key =? "End")%string then
      setCurrentPage (pagesLengthOr1 s) s
    else if isMeta && ((key =? "=")%string || (key =? "+")%string) then
      handleZoomIn now s
    else if isMeta && (key =? "-")%string then
      handleZoomOut now s
    else if isMeta && (key =? "0")%string then
      handleFit now s
    else s.

(** What can happen to a mounted viewer. *)
Inductive Event :=
| Wheel (e : WheelEvent.t) (rect : DOMRect) (now : Z)
| PointerDown (e : PointerEvent.t)
| PointerMove (e : PointerEvent.t)
| PointerUp
| KeyDown (e : KeyboardEvent.t) (isInputFocused : bool) (now : Q)
| ClickPrev
| ClickNext
| ClickZoomIn (now : Q)
| ClickZoomOut (now : Q)
| ClickFit (now : Q)
| Resize (v : Viewport)
| DocumentChange (d : option SvgDocument)
| AnimationFrame (currentTime : Q)
| FitFrame.



Section Viewer.

(** [Math.pow], as the host computes it. *)
Variable Math_pow : Q -> Q -> Q.

(** [handleWheel]; [rect] is the bounding rectangle of the container and
    [now] is [Date.now()]. *)
Definition handleWheel (e : WheelEvent.t) (rect : DOMRect) (now : Z)
    (s : State) : State :=
  if WheelEvent.ctrlKey e then
    let s := setIsFitMode false s in
    let s := setZoomAnimation None s in
    let pointerX := WheelEvent.clientX e - left rect in
    let pointerY := WheelEvent.clientY e - top rect in
    let currentScale := scale s in
    let currentTranslate := translate s in
    let zoomFactor := Math_pow (199 # 200) (WheelEvent.deltaY e) in
    let newScale := Qmin 4 (Qmax (1 # 10) (currentScale * zoomFactor)) in
    let scaleRatio := newScale / currentScale in
    let newX := pointerX - (pointerX - x currentTranslate) * scaleRatio in
    let newY := pointerY - (pointerY - y currentTranslate) * scaleRatio in
    let clamped := clampTranslate newX newY newScale (svgDoc s) (viewport s) in
    setTranslate clamped (setScale newScale s)
  else
    let currentScale := scale s in
    let currentTranslate := translate s in
    let overflow :=
      getOverflowState currentScale currentTranslate (svgDoc s) (viewport s) in
    let isDiscreteScroll := (WheelEvent.deltaMode e =? 1)%Z in
    let panX := wheelPansX e overflow in
    let panY := wheelPansY e overflow in
    let newX :=
      if panX
      then x currentTranslate
           - WheelEvent.deltaX e * (if isDiscreteScroll then 20 else 1)
      else x currentTranslate in
    let newY :=
      if panY
      then y currentTranslate
           - WheelEvent.deltaY e * (if isDiscreteScroll then 20 else 1)
      else y currentTranslate in
    let didPan := panX || panY in
    let s := if panY then setPageChangeAccumulator 0 s else s in
    if didPan then
      setTranslate
        (clampTranslate newX newY currentScale (svgDoc s) (viewport s)) s
    else if negb (Qeqb (WheelEvent.deltaY e) 0) then
      let numPages := pagesLengthOr1 s in
      let current := currentPage s in
      if isDiscreteScroll then
        let cooldownPassed :=
          (PAGE_CHANGE_COOLDOWN <? now - lastPageChangeTime s)%Z in
        if cooldownPassed then
          let direction := if Qltb 0 (WheelEvent.deltaY e) then 1%Z else (-1)%Z in
          let newPage := (current + direction)%Z in
          if ((1 <=? newPage) && (newPage <=? numPages))%Z then
            setCurrentPage newPage (setLastPageChangeTime now s)
          else s
        else s
      else
        let s :=
          setPageChangeAccumulator
            (pageChangeAccumulator s + WheelEvent.deltaY e) s in
        let cooldownPassed :=
          (PAGE_CHANGE_COOLDOWN <? now - lastPageChangeTime s)%Z in
        if Qleb PAGE_CHANGE_THRESHOLD (Qabs (pageChangeAccumulator s))
           && cooldownPassed then
          let direction :=
            if Qltb 0 (pageChangeAccumulator s) then 1%Z else (-1)%Z in
          let newPage := (current + direction)%Z in
          if ((1 <=? newPage) && (newPage <=? numPages))%Z then
            let s := setLastPageChangeTime now s in
            let s := setPageChangeAccumulator 0 s in
            let s := setCurrentPage newPage s in
            match svgDoc s with
            | Some doc =>
                let docHeight := height_pt doc * currentScale in
                if Qltb (height (viewport s)) docHeight then
                  if (0 <? direction)%Z then
                    setTranslate
                      (clampTranslate (x (translate s)) EDGE_PADDING
                         currentScale (svgDoc s) (viewport s)) s
                  else
                    let bottomY :=
                      height (viewport s) - docHeight - EDGE_PADDING in
                    setTranslate
                      (clampTranslate (x (translate s)) bottomY
                         currentScale (svgDoc s) (viewport s)) s
                else s
            | None => s
            end
          else setPageChangeAccumulator 0 s
        else s
    else s.

(** One event, as the listeners and the buttons of the component route it.
    A disabled button delivers no click. *)
Definition dispatch (ev : Event) (s : State) : State :=
  match ev with
  | Wheel e rect now => handleWheel e rect now s
  | PointerDown e => handlePointerDown e s
  | PointerMove e => handlePointerMove e s
  | PointerUp => handlePointerUp s
  | KeyDown e isInputFocused now => handleKeyDown e isInputFocused now s
  | ClickPrev => if (currentPage s <=? 1)%Z then s else goToPrevPage s
  | ClickNext => if (numPages s <=? currentPage s)%Z then s else goToNextPage s
  | ClickZoomIn now => handleZoomIn now s
  | ClickZoomOut now => handleZoomOut now s
  | ClickFit now => if isFitMode s then s else handleFit now s
  | Resize v => resizeObserver (setViewport v s)
  | DocumentChange d => fitOnLoadEffect (setSvgDoc d s)
  | AnimationFrame currentTime =>
      match zoomAnimation s with
      | Some a => animate a currentTime s
      | None => s
      end
  | FitFrame =>
      if fitScheduled s then fitToViewport (setFitScheduled false s) else s
  end.

(** An event followed by the render it causes: the page-count effect runs
    after every render in which the page or the page count changed. *)
Definition handle (ev : Event) (s : State) : State :=
  resetPageEffect (dispatch ev s).

Definition run (evs : list Event) (s : State) : State :=
  fold_left (fun s ev => handle ev s) evs s.

(** The states a viewer can be in between two events, when every event
    satisfies [ok]. *)
Inductive reachableVia (ok : Event -> Prop) : State -> Prop :=
| reachable_init (v : Viewport) : reachableVia ok (initialState v)
| reachable_step (ev : Event) (s : State) :
    ok ev -> reachableVia ok s -> reachableVia ok (handle ev s).

Definition reachable : State -> Prop := reachableVia (fun _ => True).


End Viewer.

(** ** Predicates of the specification *)

(** The zoom bounds. *)
Definition inZoomBounds (q : Q) : Prop := 1 # 10 <= q <= 4.

(** Equality of positions, up to the representation of the rationals. *)
Definition sameTranslate (a b : Translate) : Prop :=
  x a == x b /\ y a == y b.

(** The translate of [s] is a fixed point of [clampTranslate] at the scale,
    document and viewport of [s]. *)
Definition clamped (s : State) : Prop :=
  sameTranslate (translate s)
    (clampTranslate (x (translate s)) (y (translate s)) (scale s)
       (svgDoc s) (viewport s)).

(** A document whose page has a positive width and height. *)
Definition positiveDoc (doc : option SvgDocument) : Prop :=
  match doc with
  | Some d => 0 < width_pt d /\ 0 < height_pt d
  | None => True
  end.

(** A sample host [Math.pow], exact on integer exponents, for the concrete
    runs below. *)
Definition powFloor (b e : Q) : Q := b ^ Qfloor e.

(** The US-letter document and the viewport of the worked example. *)
Definition letterDoc : SvgDocument :=
  mkSvgDocument ["<svg/>"; "<svg/>"; "<svg/>"]%string 612 792.

Definition viewport800x600 : Viewport := mkViewport 800 600.

(** The wheel event [e] reaches the page-turn branch of [handleWheel] in
    state [s]: no modifier, no pan on either axis, and a vertical delta. *)
Definition routesToPageTurn (e : WheelEvent.t) (s : State) : bool :=
  let overflow :=
    getOverflowState (scale s) (translate s) (svgDoc s) (viewport s) in
  negb (WheelEvent.ctrlKey e)
  && negb (wheelPansX e overflow)
  && negb (wheelPansY e overflow)
  && negb (Qeqb (WheelEvent.deltaY e) 0).

Definition isDiscrete (e : WheelEvent.t) : bool :=
  (WheelEvent.deltaMode e =? 1)%Z.


(** [sign(deltaY)] as the handler takes it: [deltaY > 0 ? 1 : -1]. *)
Definition direction (d : Q) : Z := if Qltb 0 d then 1%Z else (-1)%Z.


(** The viewer after the letter document was supplied and fitted in the
    800 x 600 viewport. *)
Definition fittedLetter : State :=
  run powFloor [DocumentChange (Some letterDoc); FitFrame]
    (initialState viewport800x600).

(** A wheel event without modifier at the middle of the viewport. *)
Definition scrollBy (dx dy : Q) (mode : Z) : WheelEvent.t :=
  WheelEvent.mk false dx dy mode 400 300.

Definition originRect : DOMRect := mkDOMRect 0 0.

Definition pressKey (k : string) : Event :=
  KeyDown (KeyboardEvent.mk k false false) false 0.

(** The fitted letter document, showing its last page. *)
Definition atLastPage : State :=
  handle powFloor (pressKey "End") fittedLetter.

(** The fitted letter document after a continuous scroll of 10, short of
    the page-turn threshold. *)
Definition halfScrolled : State :=
  handleWheel powFloor (scrollBy 0 10 0) originRect 1000 fittedLetter.

(** Then zoomed in three times with the buttons, each animation run to its
    end: the page is now wider than the viewport. *)
Definition zoomedIn : State :=
  run powFloor
    [ClickZoomIn 2000; AnimationFrame 2200;
     ClickZoomIn 3000; AnimationFrame 3200;
     ClickZoomIn 4000; AnimationFrame 4200] halfScrolled.

(** The page number shown in the navigation bubble:
    [numPages > 0 ? currentPage : 0]. *)
Definition displayedPage (s : State) : Z :=
  if (0 <? numPages s)%Z then currentPage s else 0%Z.

(** Every document supplied to the viewer has at least one page. *)
Definition suppliesPages (ev : Event) : Prop :=
  match ev with
  | DocumentChange (Some d) => pages d <> []
  | _ => True
  end.

(** The fit of document [doc] in viewport [v], when there is one, has its
    scale within the zoom bounds. *)
Definition fitInBounds (doc : option SvgDocument) (v : Viewport) : Prop :=
  forall fit : Fit, getFitValues doc v = Some fit -> inZoomBounds (fit_scale fit).

(** The scale, and the start and target scale of a pending animation, are
    within the zoom bounds. *)
Definition scalesInBounds (s : State) : Prop :=
  inZoomBounds (scale s)
  /\ match zoomAnimation s with
     | Some a =>
         inZoomBounds (startScale a) /\ inZoomBounds (targetScale a)
         /\ 0 < duration a
     | None => True
     end.

(** An animation frame does not carry a time stamp before the start of the
    animation. *)
Definition frameNotEarly (ev : Event) (s : State) : Prop :=
  match ev, zoomAnimation s with
  | AnimationFrame currentTime, Some a => startTime a <= currentTime
  | _, _ => True
  end.

(** The target of the animation [a] is a fixed point of [clampTranslate] at
    the target scale, for the document and viewport of [s]. *)
Definition targetClamped (a : Animation) (s : State) : Prop :=
  sameTranslate (mkTranslate (targetX a) (targetY a))
    (clampTranslate (targetX a) (targetY a) (targetScale a)
       (svgDoc s) (viewport s)).

Definition isAnimationFrame (ev : Event) : bool :=
  match ev with
  | AnimationFrame _ => true
  | _ => false
  end.

(** After the first zoom-in, dragged down to the top edge, and a fit
    requested with the button: the state half way through the animation. *)
Definition midFitAnimation : State :=
  run powFloor
    [ClickZoomIn 2000; AnimationFrame 2200;
     PointerDown (PointerEvent.mk 0 false 400 300);
     PointerMove (PointerEvent.mk 0 false 400 400);
     PointerUp;
     ClickFit 3000; AnimationFrame 3100] fittedLetter.

(** A large viewport, and the letter document fitted in it. *)
Definition viewport10000 : Viewport := mkViewport 10000 10000.

Definition fittedLarge : State :=
  run powFloor [DocumentChange (Some letterDoc); FitFrame]
    (initialState viewport10000).

(** Zoomed in once, then a second zoom-in under way: its animation has run
    for 50 of its 200 ms. *)
Definition zoomingIn : State :=
  run powFloor
    [ClickZoomIn 2000; AnimationFrame 2200;
     ClickZoomIn 3000; AnimationFrame 3050] fittedLetter.

(** A drag of 50 pixels downwards, and a wheel pan upwards, while that
    animation is under way. *)
Definition dragDuringZoom : list Event :=
  [PointerDown (PointerEvent.mk 0 false 400 300);
   PointerMove (PointerEvent.mk 0 false 400 350)].

Definition panDuringZoom : Event :=
  Wheel (scrollBy 0 (-30) 0) originRect 3060.

(** The same key pressed [k] times, with the focus outside any input. *)
Definition pressTimes (k : nat) (e : KeyboardEvent.t) (s : State) : State :=
  Nat.iter k (handleKeyDown e false 0) s.

(** The position of the pointer within the container, as the wheel handler
    computes it. *)
Definition pointerX (e : WheelEvent.t) (rect : DOMRect) : Q :=
  WheelEvent.clientX e - left rect.

Definition pointerY (e : WheelEvent.t) (rect : DOMRect) : Q :=
  WheelEvent.clientY e - top rect.

(** ** Strings and local storage of the host

    A string of the host is its sequence of UTF-16 code units. The search
    strings and separators of [lib/paths.ts] and [App.tsx] are one unit
    long, so [lastIndexOf] and [split] take one unit. *)

Module JS.

Definition str : Type := list N.

(** A string literal of the source. *)
Definition lit (s : string) : str :=
  List.map N_of_ascii (list_ascii_of_string s).

Fixpoint eqb (a b : str) : bool :=
  match a, b with
  | [], [] => true
  | u :: a', w :: b' => (u =? w)%N && eqb a' b'
  | _, _ => false
  end.

(** [s.lastIndexOf(c)]: the index of the last [c], or -1. *)
Fixpoint lastIndexOf (c : N) (s : str) : Z :=
  match s with
  | [] => (-1)%Z
  | u :: rest =>
      let r := lastIndexOf c rest in
      if (0 <=? r)%Z then (r + 1)%Z
      else if (u =? c)%N then 0%Z else (-1)%Z
  end.

(** [s.substring(start, stop)]: both indices are brought within
    [0, length], and swapped when [start > stop]. *)
Definition substring (s : str) (start stop : Z) : str :=
  let len := Z.of_nat (List.length s) in
  let a := Z.min (Z.max start 0) len in
  let b := Z.min (Z.max stop 0) len in
  let lo := Z.min a b in
  let hi := Z.max a b in
  firstn (Z.to_nat (hi - lo)) (skipn (Z.to_nat lo) s).

(** [s.split(c)]: the pieces between the separators; never empty. *)
Fixpoint split (c : N) (s : str) : list str :=
  match s with
  | [] => [[]]
  | u :: rest =>
      if (u =? c)%N then [] :: split c rest
      else
        match split c rest with
        | piece :: pieces => (u :: piece) :: pieces
        | [] => [[u]]
        end
  end.

(** [parts.pop()]: the last element, undefined for an empty array. *)
Definition pop (parts : list str) : option str :=
  List.last (List.map Some parts) None.

(** [a || b] on strings that may be undefined or null: the empty string is
    falsy as well. *)
Definition or (a b : option str) : option str :=
  match a with
  | Some (_ :: _) => a
  | _ => b
  end.

(** [localStorage]: [getItem] gives null for a missing key. *)
Definition Storage : Type := str -> option str.

Definition getItem (st : Storage) (k : str) : option str := st k.

Definition setItem (st : Storage) (k v : str) : Storage :=
  fun k' => if eqb k' k then Some v else st k'.

End JS.

Definition slash : N := 47.
Definition backslash : N := 92.
Definition dot : N := 46.

(** ** [lib/paths.ts] *)

Definition OPEN_DIR_KEY : JS.str := JS.lit "pdf_app_open_dir".
Definition SAVE_DIR_KEY : JS.str := JS.lit "pdf_app_save_dir".

Definition getLastOpenDir (localStorage : JS.Storage) : option JS.str :=
  JS.or (JS.getItem localStorage OPEN_DIR_KEY) None.

Definition setLastOpenDir (path : JS.str) (localStorage : JS.Storage)
    : JS.Storage :=
  let dir :=
    JS.or (Some (JS.substring path 0 (JS.lastIndexOf slash path)))
      (Some (JS.substring path 0 (JS.lastIndexOf backslash path))) in
  match dir with
  | Some (u :: d) => JS.setItem localStorage OPEN_DIR_KEY (u :: d)
  | _ => localStorage
  end.

Definition getLastSaveDir (localStorage : JS.Storage) : option JS.str :=
  JS.or (JS.getItem localStorage SAVE_DIR_KEY) None.

Definition setLastSaveDir (path : JS.str) (localStorage : JS.Storage)
    : JS.Storage :=
  let dir :=
    JS.or (Some (JS.substring path 0 (JS.lastIndexOf slash path)))
      (Some (JS.substring path 0 (JS.lastIndexOf backslash path))) in
  match dir with
  | Some (u :: d) => JS.setItem localStorage SAVE_DIR_KEY (u :: d)
  | _ => localStorage
  end.

(** ** [App.tsx]: the name proposed for the PDF *)

(** Case folding of the regular expression flag [i], on the letters of the
    pattern: an upper-case ASCII letter matches its lower-case letter. *)
Definition foldCase (u : N) : N :=
  if ((65 <=? u) && (u <=? 90))%N then (u + 32)%N else u.

(** The alternatives [(md|markdown|txt)] followed by the end of input. *)
Definition isMarkdownExtension (rest : JS.str) : bool :=
  let l := List.map foldCase rest in
  JS.eqb l (JS.lit "md") || JS.eqb l (JS.lit "markdown")
  || JS.eqb l (JS.lit "txt").

(** [name.replace(/\.(md|markdown|txt)$/i, "")]: the match starts at the
    first dot that an extension and the end of input follow, and is
    removed. *)
Fixpoint replaceMarkdownExtension (name : JS.str) : JS.str :=
  match name with
  | [] => []
  | u :: rest =>
      if (u =? dot)%N && isMarkdownExtension rest then []
      else u :: replaceMarkdownExtension rest
  end.

(** [getDefaultPdfName]; a null and an empty [currentFile] are falsy. *)
Definition getDefaultPdfName (currentFile : option JS.str) : JS.str :=
  match currentFile with
  | None | Some [] => JS.lit "document.pdf"
  | Some f =>
      let name :=
        JS.or (JS.or (JS.pop (JS.split slash f)) (JS.pop (JS.split backslash f)))
          (Some (JS.lit "document")) in
      match name with
      | Some name => replaceMarkdownExtension name ++ JS.lit ".pdf"
      | None => JS.lit ".pdf"   (* not reached: the last operand is truthy *)
      end
  end.

(** The default path of the save dialog in [savePdf]:
    [lastDir ? `${lastDir}/${defaultName}` : defaultName]. *)
Definition defaultSavePath (localStorage : JS.Storage)
    (currentFile : option JS.str) : JS.str :=
  let lastDir := getLastSaveDir localStorage in
  let defaultName := getDefaultPdfName currentFile in
  match lastDir with
  | Some lastDir => lastDir ++ slash :: defaultName
  | None => defaultName
  end.

(** ** Comparisons *)

Lemma Qleb_true (a b : Q) : Qleb a b = true <-> a <= b.
Proof. unfold Qleb. apply Qle_bool_iff. Qed.

Lemma Qleb_false (a b : Q) : Qleb a b = false <-> b < a.
Proof.
  unfold Qleb. split; intro H.
  - apply Qnot_le_lt. intro Hle. apply Qle_bool_iff in Hle. congruence.
  - destruct (Qle_bool a b) eqn:E; [|reflexivity].
    apply Qle_bool_iff in E. exfalso. apply (Qlt_not_le _ _ H E).
Qed.

Lemma Qltb_true (a b : Q) : Qltb a b = true <-> a < b.
Proof.
  unfold Qltb. rewrite negb_true_iff. apply (Qleb_false b a).
Qed.

Lemma Qltb_false (a b : Q) : Qltb a b = false <-> b <= a.
Proof.
  unfold Qltb. rewrite negb_false_iff. apply (Qleb_true b a).
Qed.

Lemma Qeqb_true (a b : Q) : Qeqb a b = true <-> a == b.
Proof. unfold Qeqb. apply Qeq_bool_iff. Qed.

Lemma Qeqb_false (a b : Q) : Qeqb a b = false <-> ~ a == b.
Proof.
  unfold Qeqb. split; intro H.
  - intro E. apply Qeq_bool_iff in E. congruence.
  - destruct (Qeq_bool a b) eqn:E; [|reflexivity].
    apply Qeq_bool_iff in E. contradiction.
Qed.

(** [Math.min(hi, Math.max(lo, v))] stays within [lo, hi] when [lo <= hi]. *)
Lemma Qmin_max_bounds (lo hi v : Q) :
  lo <= hi -> lo <= Qmin hi (Qmax lo v) <= hi.
Proof.
  intro H. split.
  - apply Q.min_glb; [exact H | apply Q.le_max_l].
  - apply Q.le_min_l.
Qed.

(** Clamping a value already within the bounds returns it. *)
Lemma Qmin_max_fixed (lo hi v : Q) :
  lo <= v <= hi -> Qmin hi (Qmax lo v) == v.
Proof.
  intros [H1 H2].
  rewrite (Q.max_r lo v H1). apply Q.min_r. exact H2.
Qed.

(** ** [clampTranslate] *)

(** C3. For a document, a viewport, a scale within the zoom bounds and any
    input position: on each axis, when the scaled document dimension is at
    most the viewport dimension [clampTranslate] returns the centring value
    [(viewportDimension - docDimension) / 2]; otherwise it returns
    [min(EDGE_PADDING, max(viewportDimension - docDimension - EDGE_PADDING,
    value))], which lies between [viewportDimension - docDimension -
    EDGE_PADDING] and [EDGE_PADDING], and [EDGE_PADDING] is 24. *)
Theorem clampTranslate_per_axis (doc : SvgDocument) (v : Viewport)
    (currentScale x0 y0 : Q) :
  inZoomBounds currentScale ->
  let docWidth := width_pt doc * currentScale in
  let docHeight := height_pt doc * currentScale in
  let r := clampTranslate x0 y0 currentScale (Some doc) v in
  EDGE_PADDING = 24
  /\ (docWidth <= width v -> x r = (width v - docWidth) / 2)
  /\ (width v < docWidth ->
      x r = Qmin EDGE_PADDING (Qmax (width v - docWidth - EDGE_PADDING) x0)
      /\ width v - docWidth - EDGE_PADDING <= x r <= EDGE_PADDING)
  /\ (docHeight <= height v -> y r = (height v - docHeight) / 2)
  /\ (height v < docHeight ->
      y r = Qmin EDGE_PADDING (Qmax (height v - docHeight - EDGE_PADDING) y0)
      /\ height v - docHeight - EDGE_PADDING <= y r <= EDGE_PADDING).
Proof.
  intros _ docWidth docHeight r.
  split; [reflexivity|].
  unfold r, clampTranslate; cbn [x y].
  fold docWidth docHeight.
  assert (lower : forall lo w, lo < w ->
            lo - w - EDGE_PADDING <= EDGE_PADDING)
    by (intros lo w H; unfold EDGE_PADDING; lra).
  repeat split.
  - intro H. apply Qleb_true in H. rewrite H. reflexivity.
  - apply Qleb_false in H. rewrite H. reflexivity.
  - rewrite (proj2 (Qleb_false _ _) H).
    apply Qmin_max_bounds, lower, H.
  - rewrite (proj2 (Qleb_false _ _) H). apply Q.le_min_l.
  - intro H. apply Qleb_true in H. rewrite H. reflexivity.
  - apply Qleb_false in H. rewrite H. reflexivity.
  - rewrite (proj2 (Qleb_false _ _) H).
    apply Qmin_max_bounds, lower, H.
  - rewrite (proj2 (Qleb_false _ _) H). apply Q.le_min_l.
Qed.

Lemma clampTranslate_per_axis_witness :
  inZoomBounds 1
  /\ x (clampTranslate 0 100 1 (Some letterDoc) viewport800x600)
     = (800 - 612 * 1) / 2
  /\ 600 - 792 * 1 - EDGE_PADDING
     <= y (clampTranslate 0 100 1 (Some letterDoc) viewport800x600)
     <= EDGE_PADDING.
Proof.
  assert (H : inZoomBounds 1) by (unfold inZoomBounds; lra).
  split; [exact H|].
  destruct (clampTranslate_per_axis letterDoc viewport800x600 1 0 100 H)
    as (_ & Hx & _ & _ & Hy).
  split.
  - apply Hx. simpl. lra.
  - apply Hy. simpl. lra.
Defined.

(** [clampTranslate] is idempotent: its result is a fixed point. *)
Lemma clampTranslate_idempotent (x0 y0 currentScale : Q)
    (doc : option SvgDocument) (v : Viewport) :
  let r := clampTranslate x0 y0 currentScale doc v in
  sameTranslate r (clampTranslate (x r) (y r) currentScale doc v).
Proof.
  destruct doc as [doc|]; cbn; unfold sameTranslate; cbn [x y].
  2: split; reflexivity.
  split.
  - destruct (Qleb (width_pt doc * currentScale) (width v)) eqn:E.
    + reflexivity.
    + apply Qleb_false in E. symmetry. apply Qmin_max_fixed.
      apply Qmin_max_bounds. unfold EDGE_PADDING. lra.
  - destruct (Qleb (height_pt doc * currentScale) (height v)) eqn:E.
    + reflexivity.
    + apply Qleb_false in E. symmetry. apply Qmin_max_fixed.
      apply Qmin_max_bounds. unfold EDGE_PADDING. lra.
Qed.

(** ** [getFitValues] *)

Lemma getFitValues_none (doc : SvgDocument) (v : Viewport) :
  getFitValues (Some doc) v = None <-> width v * height v == 0.
Proof.
  unfold getFitValues.
  destruct (Qeqb (width v) 0) eqn:Ew; cbn [orb].
  - apply Qeqb_true in Ew. split; [|reflexivity].
    intros _. rewrite Ew. ring.
  - destruct (Qeqb (height v) 0) eqn:Eh.
    + apply Qeqb_true in Eh. split; [|reflexivity].
      intros _. rewrite Eh. ring.
    + apply Qeqb_false in Ew. apply Qeqb_false in Eh.
      split; [discriminate|].
      intro H. apply Qmult_integral in H. tauto.
Qed.

Lemma getFitValues_some (doc : SvgDocument) (v : Viewport) (fit : Fit) :
  getFitValues (Some doc) v = Some fit ->
  fit = mkFit
          (Qmin ((width v - EDGE_PADDING * 2) / width_pt doc)
                ((height v - EDGE_PADDING * 2) / height_pt doc))
          ((width v
            - width_pt doc
              * Qmin ((width v - EDGE_PADDING * 2) / width_pt doc)
                     ((height v - EDGE_PADDING * 2) / height_pt doc)) / 2)
          ((height v
            - height_pt doc
              * Qmin ((width v - EDGE_PADDING * 2) / width_pt doc)
                     ((height v - EDGE_PADDING * 2) / height_pt doc)) / 2).
Proof.
  unfold getFitValues.
  destruct (Qeqb (width v) 0 || Qeqb (height v) 0); [discriminate|].
  intro H. injection H as <-. reflexivity.
Qed.

(** C4, as the code has it. [getFitValues] gives nothing exactly when the
    viewport area is zero, and then [fitToViewport] changes nothing and
    [handleFit] leaves scale and translate as they are. Otherwise the scale
    is [min((viewportWidth - 2 EDGE_PADDING) / docWidth, (viewportHeight -
    2 EDGE_PADDING) / docHeight)] and the translate centres the scaled
    document: the margins on both sides are equal. For the 612 x 792
    document in the 800 x 600 viewport the scale is 23/33 (about 0.697),
    x is 2054/11 (about 186.7) and y is 24. *)
Theorem getFitValues_null_or_centred (doc : SvgDocument) (v : Viewport) :
  (getFitValues (Some doc) v = None <-> width v * height v == 0)
  /\ (forall (s : State) (now : Q),
        getFitValues (svgDoc s) (viewport s) = None ->
        fitToViewport s = s
        /\ scale (handleFit now s) = scale s
        /\ translate (handleFit now s) = translate s
        /\ zoomAnimation (handleFit now s) = zoomAnimation s)
  /\ (forall fit : Fit,
        getFitValues (Some doc) v = Some fit ->
        fit_scale fit
        == Qmin ((width v - 2 * EDGE_PADDING) / width_pt doc)
                ((height v - 2 * EDGE_PADDING) / height_pt doc)
        /\ fit_x fit == (width v - width_pt doc * fit_scale fit) / 2
        /\ fit_y fit == (height v - height_pt doc * fit_scale fit) / 2
        /\ fit_x fit + width_pt doc * fit_scale fit + fit_x fit == width v
        /\ fit_y fit + height_pt doc * fit_scale fit + fit_y fit == height v)
  /\ (exists fit : Fit,
        getFitValues (Some letterDoc) viewport800x600 = Some fit
        /\ fit_scale fit == 23 # 33
        /\ fit_x fit == 2054 # 11
        /\ fit_y fit == 24
        /\ Qabs (fit_scale fit - (697 # 1000)) <= 1 # 2000
        /\ Qabs (fit_x fit - (1867 # 10)) <= 1 # 20).
Proof.
  split; [apply getFitValues_none|].
  split.
  { intros s now H. unfold fitToViewport, handleFit.
    cbn. rewrite H. cbn. repeat split; reflexivity. }
  split.
  { intros fit H. apply getFitValues_some in H. subst fit. cbn.
    split.
    { assert (E : EDGE_PADDING * 2 == 2 * EDGE_PADDING) by ring.
      rewrite E. reflexivity. }
    set (m := Qmin _ _).
    split; [reflexivity|]. split; [reflexivity|]. split; field. }
  eexists. split; [reflexivity|].
  cbn. repeat split; try reflexivity.
  - vm_compute. discriminate.
  - vm_compute. discriminate.
Qed.

(** The worked example of the specification does not hold: the fit of the
    612 x 792 document in the 800 x 600 viewport has no x near 97.7 (and no
    y near 24.4). *)
Lemma getFitValues_example_off :
  ~ (exists fit : Fit,
       getFitValues (Some letterDoc) viewport800x600 = Some fit
       /\ Qabs (fit_scale fit - (697 # 1000)) <= 1 # 1000
       /\ Qabs (fit_x fit - (977 # 10)) <= 1 # 10
       /\ Qabs (fit_y fit - (244 # 10)) <= 1 # 10).
Proof.
  intros (fit & H & _ & Hx & _).
  apply getFitValues_some in H. subst fit.
  vm_compute in Hx. apply Hx. reflexivity.
Qed.

(** ** The wheel handler: page turns *)

Lemma routesToPageTurn_inv (e : WheelEvent.t) (s : State) :
  routesToPageTurn e s = true ->
  WheelEvent.ctrlKey e = false
  /\ wheelPansX e
       (getOverflowState (scale s) (translate s) (svgDoc s) (viewport s))
     = false
  /\ wheelPansY e
       (getOverflowState (scale s) (translate s) (svgDoc s) (viewport s))
     = false
  /\ Qeqb (WheelEvent.deltaY e) 0 = false.
Proof.
  unfold routesToPageTurn. cbv zeta.
  rewrite !andb_true_iff, !negb_true_iff. tauto.
Qed.


(** A continuous event in the page-turn branch, as one expression. *)
Lemma handleWheel_continuous (Math_pow : Q -> Q -> Q) (e : WheelEvent.t)
    (rect : DOMRect) (now : Z) (s : State) :
  routesToPageTurn e s = true ->
  isDiscrete e = false ->
  handleWheel Math_pow e rect now s
  = let pending := pageChangeAccumulator s + WheelEvent.deltaY e in
    let s1 := setPageChangeAccumulator pending s in
    if Qleb PAGE_CHANGE_THRESHOLD (Qabs pending)
       && (PAGE_CHANGE_COOLDOWN <? now - lastPageChangeTime s)%Z
    then
      let newPage := (currentPage s + direction pending)%Z in
      if ((1 <=? newPage) && (newPage <=? pagesLengthOr1 s))%Z then
        let s2 :=
          setCurrentPage newPage
            (setPageChangeAccumulator 0 (setLastPageChangeTime now s1)) in
        match svgDoc s with
        | Some doc =>
            if Qltb (height (viewport s)) (height_pt doc * scale s) then
              if (0 <? direction pending)%Z then
                setTranslate
                  (clampTranslate (x (translate s)) EDGE_PADDING (scale s)
                     (svgDoc s) (viewport s)) s2
              else
                setTranslate
                  (clampTranslate (x (translate s))
                     (height (viewport s) - height_pt doc * scale s
                      - EDGE_PADDING)
                     (scale s) (svgDoc s) (viewport s)) s2
            else s2
        | None => s2
        end
      else setPageChangeAccumulator 0 s1
    else s1.
Proof.
  intros Hr Hd. apply routesToPageTurn_inv in Hr.
  destruct Hr as (Hc & Hx & Hy & Hz).
  unfold isDiscrete in Hd.
  unfold handleWheel. rewrite Hc. cbv zeta. rewrite Hx, Hy, Hz, Hd.
  cbn -[Qabs Qleb Qltb clampTranslate Z.add Z.sub Z.ltb Z.leb Qplus
        PAGE_CHANGE_THRESHOLD PAGE_CHANGE_COOLDOWN].
  unfold direction.
  destruct (svgDoc s); reflexivity.
Qed.





(** A discrete event in the page-turn branch, as one expression. *)
Lemma handleWheel_discrete (Math_pow : Q -> Q -> Q) (e : WheelEvent.t)
    (rect : DOMRect) (now : Z) (s : State) :
  routesToPageTurn e s = true ->
  isDiscrete e = true ->
  handleWheel Math_pow e rect now s
  = if (PAGE_CHANGE_COOLDOWN <? now - lastPageChangeTime s)%Z then
      let newPage := (currentPage s + direction (WheelEvent.deltaY e))%Z in
      if ((1 <=? newPage) && (newPage <=? pagesLengthOr1 s))%Z
      then setCurrentPage newPage (setLastPageChangeTime now s)
      else s
    else s.
Proof.
  intros Hr Hd. apply routesToPageTurn_inv in Hr.
  destruct Hr as (Hc & Hx & Hy & Hz).
  unfold isDiscrete in Hd.
  unfold handleWheel. rewrite Hc. cbv zeta. rewrite Hx, Hy, Hz, Hd.
  reflexivity.
Qed.

(** A wheel event that pans, as one expression. *)
Lemma handleWheel_pan (Math_pow : Q -> Q -> Q) (e : WheelEvent.t)
    (rect : DOMRect) (now : Z) (s : State) :
  WheelEvent.ctrlKey e = false ->
  let overflow :=
    getOverflowState (scale s) (translate s) (svgDoc s) (viewport s) in
  wheelPansX e overflow || wheelPansY e overflow = true ->
  let m := if isDiscrete e then 20 else 1 in
  let newX := if wheelPansX e overflow
              then x (translate s) - WheelEvent.deltaX e * m
              else x (translate s) in
  let newY := if wheelPansY e overflow
              then y (translate s) - WheelEvent.deltaY e * m
              else y (translate s) in
  handleWheel Math_pow e rect now s
  = setTranslate (clampTranslate newX newY (scale s) (svgDoc s) (viewport s))
      (if wheelPansY e overflow then setPageChangeAccumulator 0 s else s).
Proof.
  intros Hc overflow Hpan m newX newY.
  unfold handleWheel. rewrite Hc. cbv zeta.
  fold overflow. rewrite Hpan.
  unfold newX, newY, m, isDiscrete.
  destruct (wheelPansY e overflow); reflexivity.
Qed.




(** ** The wheel handler: the accumulator *)



(** A committed pan that is horizontal only, and a committed discrete page
    turn, both leave a non-zero accumulator. *)
Lemma accumulator_kept_by_horizontal_pan :
  let right := scrollBy 5 0 0 in
  let overflow :=
    getOverflowState (scale zoomedIn) (translate zoomedIn) (svgDoc zoomedIn)
      (viewport zoomedIn) in
  let s1 := handleWheel powFloor right originRect 5000 zoomedIn in
  let click := scrollBy 0 1 1 in
  let s2 := handleWheel powFloor click originRect 5000 halfScrolled in
  wheelPansX right overflow = true
  /\ ~ x (translate s1) == x (translate zoomedIn)
  /\ pageChangeAccumulator s1 == 10
  /\ ~ pageChangeAccumulator s1 == 0
  /\ routesToPageTurn click halfScrolled = true
  /\ currentPage halfScrolled = 1%Z
  /\ currentPage s2 = 2%Z
  /\ pageChangeAccumulator s2 == 10
  /\ ~ pageChangeAccumulator s2 == 0.
Proof.
  cbv zeta.
  repeat (split; [first [reflexivity | vm_compute; discriminate]|]).
  vm_compute; discriminate.
Qed.

(** ** The current page *)

Lemma resetPageEffect_fields (s : State) :
  svgDoc (resetPageEffect s) = svgDoc s
  /\ viewport (resetPageEffect s) = viewport s
  /\ scale (resetPageEffect s) = scale s
  /\ translate (resetPageEffect s) = translate s
  /\ zoomAnimation (resetPageEffect s) = zoomAnimation s
  /\ pageChangeAccumulator (resetPageEffect s) = pageChangeAccumulator s.
Proof.
  unfold resetPageEffect.
  destruct ((numPages s <? currentPage s) && (0 <? numPages s))%Z;
    repeat split; reflexivity.
Qed.

Lemma resetPageEffect_page (s : State) :
  currentPage (resetPageEffect s)
  = if ((numPages s <? currentPage s) && (0 <? numPages s))%Z
    then 1%Z else currentPage s.
Proof.
  unfold resetPageEffect.
  destruct ((numPages s <? currentPage s) && (0 <? numPages s))%Z; reflexivity.
Qed.

(** C10. When the supplied document changes so that the current page
    exceeds the new, positive page count, the current page becomes 1, the
    first page, and is not clamped to the page count; when the current page
    is still within the page count it stays. *)
Theorem document_change_resets_page (Math_pow : Q -> Q -> Q)
    (d : option SvgDocument) (s : State) :
  let s1 := handle Math_pow (DocumentChange d) s in
  let n := numPages s1 in
  svgDoc s1 = d
  /\ ((0 < n)%Z -> (n < currentPage s)%Z -> currentPage s1 = 1%Z)
  /\ ((currentPage s <= n)%Z -> currentPage s1 = currentPage s).
Proof.
  intros s1 n.
  assert (Hdoc : svgDoc s1 = d).
  { unfold s1, handle.
    rewrite (proj1 (resetPageEffect_fields _)).
    cbn. unfold fitOnLoadEffect. cbn. destruct d; reflexivity. }
  assert (Hn : numPages (dispatch Math_pow (DocumentChange d) s) = n).
  { unfold n, s1, handle, numPages.
    rewrite (proj1 (resetPageEffect_fields _)). reflexivity. }
  assert (Hp : currentPage (dispatch Math_pow (DocumentChange d) s)
               = currentPage s).
  { cbn. unfold fitOnLoadEffect. cbn. destruct d; reflexivity. }
  split; [exact Hdoc|].
  unfold s1, handle. rewrite resetPageEffect_page, Hn, Hp.
  split.
  - intros Hpos Hgt.
    rewrite (proj2 (Z.ltb_lt _ _) Hgt), (proj2 (Z.ltb_lt _ _) Hpos).
    reflexivity.
  - intro Hle. rewrite (proj2 (Z.ltb_ge _ _) Hle). reflexivity.
Qed.

(** The invariant behind C9: the page is at least 1, and within a supplied
    document, which has a page. *)
Lemma page_invariant (Math_pow : Q -> Q -> Q) (s : State) :
  reachableVia Math_pow suppliesPages s ->
  (1 <= currentPage s)%Z
  /\ match svgDoc s with
     | Some d => pages d <> [] /\ (currentPage s <= Z.of_nat (List.length (pages d)))%Z
     | None => True
     end.
Proof.
  assert (Hlen : forall d : SvgDocument,
            pages d <> [] -> (1 <= Z.of_nat (List.length (pages d)))%Z).
  { intros d Hd. destruct (pages d); [contradiction | cbn; lia]. }
  assert (Hreset : forall t : State,
            (1 <= currentPage t)%Z ->
            match svgDoc t with Some d => pages d <> [] | None => True end ->
            (1 <= currentPage (resetPageEffect t))%Z
            /\ match svgDoc (resetPageEffect t) with
               | Some d => pages d <> []
                           /\ (currentPage (resetPageEffect t)
                               <= Z.of_nat (List.length (pages d)))%Z
               | None => True
               end).
  { intros t H1 Hd.
    rewrite (proj1 (resetPageEffect_fields t)), resetPageEffect_page.
    unfold numPages.
    destruct (svgDoc t) as [d|].
    - specialize (Hlen d Hd).
      destruct (Z.of_nat (List.length (pages d)) <? currentPage t)%Z eqn:E1;
        destruct (0 <? Z.of_nat (List.length (pages d)))%Z eqn:E2; cbn;
        try apply Z.ltb_lt in E1; try apply Z.ltb_ge in E1;
        try apply Z.ltb_ge in E2; repeat split; try assumption; lia.
    - change (0 <? 0)%Z with false. rewrite andb_false_r.
      split; [assumption | exact I]. }
  induction 1 as [v | ev s Hok Hs [IH1 IH2]].
  - cbn. split; [lia | exact I].
  - unfold handle.
    assert (Hkeep : forall t : State,
              svgDoc t = svgDoc s ->
              (1 <= currentPage t)%Z ->
              (1 <= currentPage (resetPageEffect t))%Z
              /\ match svgDoc (resetPageEffect t) with
                 | Some d => pages d <> []
                             /\ (currentPage (resetPageEffect t)
                                 <= Z.of_nat (List.length (pages d)))%Z
                 | None => True
                 end).
    { intros t Hdoc H1. apply Hreset; [exact H1|].
      rewrite Hdoc. destruct (svgDoc s); tauto. }
    assert (Hn : (1 <= pagesLengthOr1 s)%Z).
    { unfold pagesLengthOr1. destruct (svgDoc s) as [d|]; [|lia].
      apply Hlen. tauto. }
    destruct ev; cbn [dispatch].
    + (* Wheel *)
      apply Hreset.
      * unfold handleWheel.
        repeat match goal with
               | |- context [if ?b then _ else _] => destruct b eqn:?
               | |- context [match svgDoc ?t with _ => _ end] =>
                   destruct (svgDoc t)
               end; cbn; try assumption;
        repeat match goal with
               | H : (_ && _)%bool = true |- _ =>
                   apply andb_true_iff in H; destruct H
               | H : (_ <=? _)%Z = true |- _ => apply Z.leb_le in H
               end; assumption.
      * assert (E : svgDoc (handleWheel Math_pow e rect now s) = svgDoc s).
        { unfold handleWheel.
          repeat match goal with
                 | |- context [if ?b then _ else _] => destruct b
                 | |- context [match svgDoc ?t with _ => _ end] =>
                     destruct (svgDoc t) eqn:?
                 end; cbn; congruence. }
        rewrite E. destruct (svgDoc s); tauto.
    + (* PointerDown *)
      apply Hkeep; unfold handlePointerDown;
        destruct (negb _); try destruct (PointerEvent.targetClosestButton e);
        cbn; auto.
    + apply Hkeep; unfold handlePointerMove; destruct (negb _); cbn; auto.
    + apply Hkeep; cbn; auto.
    + (* KeyDown *)
      apply Hkeep; unfold handleKeyDown, handleZoomIn, handleZoomOut, handleFit,
        animateZoom;
        repeat match goal with
               | |- context [if ?b then _ else _] => destruct b
               | |- context [match getFitValues ?a ?b with _ => _ end] =>
                   destruct (getFitValues a b)
               end; cbn; auto; lia.
    + apply Hkeep; unfold goToPrevPage; destruct (_ <=? _)%Z; cbn; auto; lia.
    + apply Hkeep; unfold goToNextPage; destruct (_ <=? _)%Z; cbn; auto; lia.
    + apply Hkeep; cbn; auto.
    + apply Hkeep; cbn; auto.
    + apply Hkeep; unfold handleFit, animateZoom; destruct (isFitMode s);
        cbn; auto; destruct (getFitValues _ _); cbn; auto.
    + apply Hkeep; unfold resizeObserver, fitToViewport; cbn;
        destruct (isFitMode s); cbn; auto;
        destruct (getFitValues _ _); cbn; auto.
    + (* DocumentChange *)
      apply Hreset; unfold fitOnLoadEffect; cbn; destruct d; cbn; auto.
    + apply Hkeep; destruct (zoomAnimation s) as [a|]; auto;
        unfold animate; cbv zeta; destruct (Qltb _ 1); cbn; auto.
    + apply Hkeep; unfold fitToViewport; destruct (fitScheduled s); auto;
        cbn; destruct (getFitValues _ _); cbn; auto.
Qed.

Lemma reachableVia_run (Math_pow : Q -> Q -> Q) (ok : Event -> Prop)
    (evs : list Event) :
  forall s : State,
  Forall ok evs ->
  reachableVia Math_pow ok s ->
  reachableVia Math_pow ok (run Math_pow evs s).
Proof.
  induction evs as [|ev evs IH]; intros s Hok Hs.
  - exact Hs.
  - inversion Hok; subst. cbn. apply IH; [assumption|].
    apply reachable_step; assumption.
Qed.

(** C9, as the code has it. In every state reached while each supplied
    document has at least one page, the current page is at least 1, and at
    most the page count when there is a page; without a document the
    current page is not 0, only the page number shown is. The page number
    shown is 0 without pages and within [1, numPages] otherwise. *)
Theorem current_page_in_range (Math_pow : Q -> Q -> Q) (s : State) :
  reachableVia Math_pow suppliesPages s ->
  (1 <= currentPage s)%Z
  /\ ((1 <= numPages s)%Z -> (currentPage s <= numPages s)%Z)
  /\ (numPages s = 0%Z -> svgDoc s = None /\ displayedPage s = 0%Z)
  /\ ((1 <= numPages s)%Z -> (1 <= displayedPage s <= numPages s)%Z).
Proof.
  intro H. destruct (page_invariant Math_pow s H) as [H1 H2].
  unfold displayedPage, numPages in *.
  destruct (svgDoc s) as [d|].
  - destruct H2 as [Hd Hle].
    assert (Hpos : (1 <= Z.of_nat (List.length (pages d)))%Z)
      by (destruct (pages d); [contradiction | cbn; lia]).
    rewrite (proj2 (Z.ltb_lt 0 _)) by lia.
    repeat split; try assumption; lia.
  - cbn. repeat split; try assumption; lia.
Qed.

Lemma current_page_in_range_witness :
  reachableVia powFloor suppliesPages atLastPage
  /\ numPages atLastPage = 3%Z
  /\ (1 <= currentPage atLastPage <= numPages atLastPage)%Z.
Proof.
  assert (H : reachableVia powFloor suppliesPages atLastPage).
  { unfold atLastPage. apply reachable_step; [exact I|].
    unfold fittedLetter. apply reachableVia_run.
    - repeat constructor. discriminate.
    - apply reachable_init. }
  split; [exact H|]. split; [reflexivity|].
  destruct (current_page_in_range powFloor atLastPage H) as (H1 & H2 & _).
  split; [exact H1 | apply H2; discriminate].
Defined.

(** A freshly mounted viewer has no document, no pages, and its current
    page is 1, not 0. *)
Lemma initial_page_is_one :
  reachable powFloor (initialState viewport800x600)
  /\ numPages (initialState viewport800x600) = 0%Z
  /\ currentPage (initialState viewport800x600) = 1%Z
  /\ currentPage (initialState viewport800x600) <> 0%Z.
Proof.
  split; [apply reachable_init|].
  split; [reflexivity|]. split; [reflexivity | discriminate].
Qed.

(** ** What an event leaves alone *)

Ltac split_conditionals :=
  repeat match goal with
         | |- context [if ?b then _ else _] => destruct b
         | |- context [match getFitValues ?d ?v with _ => _ end] =>
             destruct (getFitValues d v)
         | |- context [match svgDoc ?t with _ => _ end] =>
             destruct (svgDoc t) eqn:?
         | |- context [match zoomAnimation ?t with _ => _ end] =>
             destruct (zoomAnimation t) eqn:?
         end.

Ltac unfold_handlers :=
  unfold handle, dispatch, handleWheel, handlePointerDown, handlePointerMove,
    handlePointerUp, handleKeyDown, handleZoomIn, handleZoomOut, handleFit,
    goToPrevPage, goToNextPage, resizeObserver, fitOnLoadEffect, fitToViewport,
    animate, animateZoom, resetPageEffect.

Lemma handle_svgDoc (Math_pow : Q -> Q -> Q) (ev : Event) (s : State) :
  svgDoc (handle Math_pow ev s)
  = match ev with DocumentChange d => d | _ => svgDoc s end.
Proof.
  unfold handle. rewrite (proj1 (resetPageEffect_fields _)).
  destruct ev; unfold_handlers; cbv zeta; split_conditionals; cbn;
    try reflexivity; try congruence.
  all: destruct d; reflexivity.
Qed.

Lemma handle_viewport (Math_pow : Q -> Q -> Q) (ev : Event) (s : State) :
  viewport (handle Math_pow ev s)
  = match ev with Resize v => v | _ => viewport s end.
Proof.
  unfold handle. rewrite (proj1 (proj2 (resetPageEffect_fields _))).
  destruct ev; unfold_handlers; cbv zeta; split_conditionals; cbn;
    try reflexivity.
  all: destruct d; reflexivity.
Qed.

(** A wheel event without modifier leaves the scale and a pending animation
    alone. *)
Lemma handleWheel_keeps_scale (Math_pow : Q -> Q -> Q) (e : WheelEvent.t)
    (rect : DOMRect) (now : Z) (s : State) :
  WheelEvent.ctrlKey e = false ->
  scale (handleWheel Math_pow e rect now s) = scale s
  /\ zoomAnimation (handleWheel Math_pow e rect now s) = zoomAnimation s.
Proof.
  intro Hc. unfold handleWheel. rewrite Hc. cbv zeta.
  split_conditionals; cbn; split; reflexivity.
Qed.

(** ** The scale *)

Lemma progress_bounds (elapsed d : Q) :
  0 <= elapsed -> 0 < d -> 0 <= Qmin (elapsed / d) 1 <= 1.
Proof.
  intros He Hd. split.
  - apply Q.min_glb; [|lra].
    unfold Qdiv. apply Qmult_le_0_compat; [exact He|].
    apply Qlt_le_weak, Qinv_lt_0_compat, Hd.
  - apply Q.le_min_r.
Qed.

(** The ease-out cubic maps [0, 1] into [0, 1]. *)
Lemma eased_bounds (p : Q) :
  0 <= p <= 1 -> 0 <= 1 - (1 - p) ^ 3 <= 1.
Proof.
  intros [H0 H1].
  assert (E : (1 - p) ^ 3 == (1 - p) * ((1 - p) * (1 - p))) by (simpl; ring).
  rewrite E.
  assert (Hq0 : 0 <= 1 - p) by lra.
  assert (Hq1 : 1 - p <= 1) by lra.
  assert (Hsq0 : 0 <= (1 - p) * (1 - p)) by (apply Qmult_le_0_compat; lra).
  assert (Hsq1 : (1 - p) * (1 - p) <= 1) by nra.
  assert (Hc0 : 0 <= (1 - p) * ((1 - p) * (1 - p)))
    by (apply Qmult_le_0_compat; lra).
  assert (Hc1 : (1 - p) * ((1 - p) * (1 - p)) <= 1) by nra.
  lra.
Qed.

(** A value interpolated between two values within bounds is within them. *)
Lemma interpolation_bounds (lo hi a b e : Q) :
  lo <= a <= hi -> lo <= b <= hi -> 0 <= e <= 1 ->
  lo <= a + (b - a) * e <= hi.
Proof.
  intros [Ha1 Ha2] [Hb1 Hb2] [He1 He2].
  assert (H1 : 0 <= (b - lo) * e) by (apply Qmult_le_0_compat; lra).
  assert (H2 : 0 <= (a - lo) * (1 - e)) by (apply Qmult_le_0_compat; lra).
  assert (H3 : 0 <= (hi - b) * e) by (apply Qmult_le_0_compat; lra).
  assert (H4 : 0 <= (hi - a) * (1 - e)) by (apply Qmult_le_0_compat; lra).
  split.
  - assert (E : a + (b - a) * e - lo == (b - lo) * e + (a - lo) * (1 - e))
      by ring.
    lra.
  - assert (E : hi - (a + (b - a) * e) == (hi - b) * e + (hi - a) * (1 - e))
      by ring.
    lra.
Qed.

Lemma zoomIn_target_bounds (q : Q) :
  inZoomBounds q -> inZoomBounds (Qmin 4 (q * (5 # 4))).
Proof.
  unfold inZoomBounds. intros [H1 H2]. split.
  - apply Q.min_glb; lra.
  - apply Q.le_min_l.
Qed.

Lemma zoomOut_target_bounds (q : Q) :
  inZoomBounds q -> inZoomBounds (Qmax (1 # 10) (q / (5 # 4))).
Proof.
  unfold inZoomBounds. intros [H1 H2]. split.
  - apply Q.le_max_l.
  - apply Q.max_lub; [lra|].
    assert (E : q / (5 # 4) == q * (4 # 5)) by (field).
    rewrite E. lra.
Qed.

Lemma wheelZoom_bounds (q : Q) : inZoomBounds (Qmin 4 (Qmax (1 # 10) q)).
Proof.
  unfold inZoomBounds. apply Qmin_max_bounds. lra.
Qed.

Lemma animate_scale_bounds (a : Animation) (currentTime : Q) (s : State) :
  inZoomBounds (startScale a) -> inZoomBounds (targetScale a) ->
  0 < duration a -> startTime a <= currentTime ->
  inZoomBounds (scale (animate a currentTime s)).
Proof.
  intros Hs Ht Hd Htime.
  assert (E : scale (animate a currentTime s)
              = startScale a
                + (targetScale a - startScale a)
                  * (1 - (1 - Qmin ((currentTime - startTime a) / duration a) 1) ^ 3)).
  { unfold animate. cbv zeta. destruct (Qltb _ 1); reflexivity. }
  rewrite E. apply interpolation_bounds; try assumption.
  apply eased_bounds, progress_bounds; [lra | exact Hd].
Qed.

Lemma animate_zoomAnimation (a : Animation) (currentTime : Q) (s : State) :
  zoomAnimation (animate a currentTime s) = Some a
  \/ zoomAnimation (animate a currentTime s) = None.
Proof.
  unfold animate. cbv zeta. destruct (Qltb _ 1); cbn; auto.
Qed.

Lemma scalesInBounds_ext (t s : State) :
  scale t = scale s -> zoomAnimation t = zoomAnimation s ->
  scalesInBounds s -> scalesInBounds t.
Proof. unfold scalesInBounds. intros -> ->. tauto. Qed.

Lemma handleZoomIn_bounds (now : Q) (s : State) :
  scalesInBounds s -> scalesInBounds (handleZoomIn now s).
Proof.
  intros [Hs _]. unfold handleZoomIn, animateZoom, scalesInBounds. cbn.
  repeat split; try apply Hs; try apply zoomIn_target_bounds, Hs.
Qed.

Lemma handleZoomOut_bounds (now : Q) (s : State) :
  scalesInBounds s -> scalesInBounds (handleZoomOut now s).
Proof.
  intros [Hs _]. unfold handleZoomOut, animateZoom, scalesInBounds. cbn.
  repeat split; try apply Hs; try apply zoomOut_target_bounds, Hs.
Qed.

Lemma handleFit_bounds (now : Q) (s : State) :
  scalesInBounds s -> fitInBounds (svgDoc s) (viewport s) ->
  scalesInBounds (handleFit now s).
Proof.
  intros Hs Hfit. unfold handleFit. cbn.
  destruct (getFitValues (svgDoc s) (viewport s)) as [fit|] eqn:E.
  - unfold animateZoom, scalesInBounds. cbn.
    repeat split; try apply Hs; apply (Hfit fit E).
  - exact Hs.
Qed.

Lemma fitToViewport_bounds (s : State) :
  scalesInBounds s -> fitInBounds (svgDoc s) (viewport s) ->
  scalesInBounds (fitToViewport s).
Proof.
  intros Hs Hfit. unfold fitToViewport.
  destruct (getFitValues (svgDoc s) (viewport s)) as [fit|] eqn:E.
  - unfold scalesInBounds. cbn. split; [apply (Hfit fit E) | apply Hs].
  - exact Hs.
Qed.

(** C2, as the code has it. A ctrl-wheel zoom always writes a scale within
    [0.1, 4]. With the scale (and the start and target of a pending
    animation) within [0.1, 4], any event keeps them there, given that an
    animation frame is not stamped before the start of its animation,
    provided the fit of the document in the viewport has its scale within
    [0.1, 4]: zoomIn and zoomOut aim within the bounds, a frame writes a
    scale between start and target, and fit-to-viewport writes the fit
    scale, which is not clamped. *)
Theorem scale_in_bounds_unless_fit (Math_pow : Q -> Q -> Q) (ev : Event)
    (s : State) :
  let s1 := handle Math_pow ev s in
  (forall (e : WheelEvent.t) (rect : DOMRect) (now : Z),
     WheelEvent.ctrlKey e = true ->
     inZoomBounds (scale (handleWheel Math_pow e rect now s)))
  /\ (scalesInBounds s ->
      frameNotEarly ev s ->
      fitInBounds (svgDoc s1) (viewport s1) ->
      scalesInBounds s1).
Proof.
  intro s1. split.
  { intros e rect now Hc. unfold handleWheel. rewrite Hc. cbn.
    apply wheelZoom_bounds. }
  intros Hs Hframe Hfit.
  unfold s1 in *. rewrite handle_svgDoc, handle_viewport in Hfit.
  unfold handle.
  apply (scalesInBounds_ext _ (dispatch Math_pow ev s));
    try apply resetPageEffect_fields.
  destruct ev; cbn [dispatch].
  - destruct (WheelEvent.ctrlKey e) eqn:Hc.
    + unfold handleWheel. rewrite Hc. unfold scalesInBounds. cbn.
      split; [apply wheelZoom_bounds | exact I].
    + destruct (handleWheel_keeps_scale Math_pow e rect now s Hc) as [E1 E2].
      apply (scalesInBounds_ext _ s E1 E2 Hs).
  - apply (scalesInBounds_ext _ s); [| | exact Hs];
      unfold handlePointerDown; split_conditionals; reflexivity.
  - apply (scalesInBounds_ext _ s); [| | exact Hs];
      unfold handlePointerMove; split_conditionals; reflexivity.
  - exact Hs.
  - unfold handleKeyDown.
    repeat match goal with
           | |- context [if ?b then _ else _] => destruct b
           end;
      try exact Hs;
      try (apply (scalesInBounds_ext _ s); [reflexivity | reflexivity | exact Hs]).
    + apply handleZoomIn_bounds, Hs.
    + apply handleZoomOut_bounds, Hs.
    + apply handleFit_bounds; assumption.
  - destruct (_ <=? _)%Z; exact Hs.
  - destruct (_ <=? _)%Z; exact Hs.
  - apply handleZoomIn_bounds, Hs.
  - apply handleZoomOut_bounds, Hs.
  - destruct (isFitMode s); [exact Hs | apply handleFit_bounds; assumption].
  - unfold resizeObserver. cbn [isFitMode setViewport].
    destruct (isFitMode s).
    + apply fitToViewport_bounds; [exact Hs | exact Hfit].
    + exact Hs.
  - apply (scalesInBounds_ext _ s); [| | exact Hs];
      unfold fitOnLoadEffect; cbn; destruct d; reflexivity.
  - unfold frameNotEarly in Hframe.
    destruct (zoomAnimation s) as [a|] eqn:Ea; [|exact Hs].
    destruct Hs as [Hsc Ha]. rewrite Ea in Ha. destruct Ha as (Ha1 & Ha2 & Ha3).
    split.
    + apply animate_scale_bounds; assumption.
    + destruct (animate_zoomAnimation a currentTime s) as [E|E]; rewrite E;
        [split; [exact Ha1 | split; [exact Ha2 | exact Ha3]] | exact I].
  - destruct (fitScheduled s); [|exact Hs].
    apply fitToViewport_bounds; [exact Hs | exact Hfit].
Qed.

Lemma scale_in_bounds_unless_fit_witness :
  let s1 := handle powFloor (ClickZoomIn 2000) fittedLetter in
  let s2 := handle powFloor (AnimationFrame 2100) s1 in
  scalesInBounds fittedLetter
  /\ frameNotEarly (AnimationFrame 2100) s1
  /\ scalesInBounds s1
  /\ scalesInBounds s2
  /\ scale s2 == 299 # 352.
Proof.
  intros s1 s2.
  assert (Hfit : fitInBounds (Some letterDoc) viewport800x600).
  { intros fit H. apply getFitValues_some in H. subst fit.
    split; vm_compute; discriminate. }
  assert (H0 : scalesInBounds fittedLetter).
  { split; [split; vm_compute; discriminate | exact I]. }
  assert (H1 : scalesInBounds s1).
  { apply (proj2 (scale_in_bounds_unless_fit powFloor (ClickZoomIn 2000)
                    fittedLetter)); [exact H0 | exact I | exact Hfit]. }
  assert (Hframe : frameNotEarly (AnimationFrame 2100) s1)
    by (vm_compute; discriminate).
  split; [exact H0|]. split; [exact Hframe|]. split; [exact H1|].
  split.
  - apply (proj2 (scale_in_bounds_unless_fit powFloor (AnimationFrame 2100) s1));
      [exact H1 | exact Hframe | exact Hfit].
  - vm_compute. reflexivity.
Defined.

(** Fitting the letter document in a 10000 x 10000 viewport takes the scale
    above 4. *)
Lemma fit_exceeds_zoom_bounds :
  reachable powFloor fittedLarge
  /\ scale fittedLarge == 1244 # 99
  /\ 4 < scale fittedLarge
  /\ ~ inZoomBounds (scale fittedLarge).
Proof.
  split.
  { unfold fittedLarge, reachable. apply reachableVia_run.
    - repeat constructor.
    - apply reachable_init. }
  split; [vm_compute; reflexivity|].
  split; [vm_compute; reflexivity|].
  intros [_ H]. vm_compute in H. apply H. reflexivity.
Qed.

(** ** The translate *)

Lemma Qleb_compat (a a' b b' : Q) :
  a == a' -> b == b' -> Qleb a b = Qleb a' b'.
Proof.
  intros Ha Hb.
  destruct (Qleb a b) eqn:E1; destruct (Qleb a' b') eqn:E2; try reflexivity.
  - apply Qleb_true in E1. apply Qleb_false in E2.
    rewrite Ha, Hb in E1. exfalso. apply (Qlt_not_le _ _ E2 E1).
  - apply Qleb_false in E1. apply Qleb_true in E2.
    rewrite Ha, Hb in E1. exfalso. apply (Qlt_not_le _ _ E1 E2).
Qed.

Lemma sameTranslate_trans (a b c : Translate) :
  sameTranslate a b -> sameTranslate b c -> sameTranslate a c.
Proof.
  unfold sameTranslate. intros [H1 H2] [H3 H4].
  split; [rewrite H1; exact H3 | rewrite H2; exact H4].
Qed.

(** [clampTranslate] respects the equality of rationals. *)
Lemma clampTranslate_compat (x0 y0 c x1 y1 c1 : Q) (doc : option SvgDocument)
    (v : Viewport) :
  x0 == x1 -> y0 == y1 -> c == c1 ->
  sameTranslate (clampTranslate x0 y0 c doc v) (clampTranslate x1 y1 c1 doc v).
Proof.
  intros Hx Hy Hc. destruct doc as [doc|]; cbn; unfold sameTranslate; cbn [x y].
  2: split; reflexivity.
  assert (Ew : width_pt doc * c == width_pt doc * c1) by (rewrite Hc; reflexivity).
  assert (Eh : height_pt doc * c == height_pt doc * c1) by (rewrite Hc; reflexivity).
  rewrite (Qleb_compat _ _ _ _ Ew (Qeq_refl (width v))).
  rewrite (Qleb_compat _ _ _ _ Eh (Qeq_refl (height v))).
  split.
  - destruct (Qleb (width_pt doc * c1) (width v)).
    + rewrite Ew. reflexivity.
    + rewrite Ew, Hx. reflexivity.
  - destruct (Qleb (height_pt doc * c1) (height v)).
    + rewrite Eh. reflexivity.
    + rewrite Eh, Hy. reflexivity.
Qed.

(** A state whose translate was just computed by [clampTranslate] at its
    scale is clamped. *)
Lemma clamped_commit (x0 y0 : Q) (s : State) :
  translate s = clampTranslate x0 y0 (scale s) (svgDoc s) (viewport s) ->
  clamped s.
Proof.
  intro H. unfold clamped. rewrite H. apply clampTranslate_idempotent.
Qed.

(** The fit of a document with a positive page size is centred on both
    axes: it is a fixed point of [clampTranslate] at the fit scale. *)
Lemma fit_is_clamped (doc : SvgDocument) (v : Viewport) (fit : Fit) :
  0 < width_pt doc -> 0 < height_pt doc ->
  getFitValues (Some doc) v = Some fit ->
  clampTranslate (fit_x fit) (fit_y fit) (fit_scale fit) (Some doc) v
  = mkTranslate (fit_x fit) (fit_y fit).
Proof.
  intros Hw Hh H. apply getFitValues_some in H. subst fit.
  cbn [fit_x fit_y fit_scale]. unfold clampTranslate.
  set (sx := (width v - EDGE_PADDING * 2) / width_pt doc).
  set (sy := (height v - EDGE_PADDING * 2) / height_pt doc).
  assert (Hx : width_pt doc * Qmin sx sy <= width v).
  { apply Qle_trans with (width_pt doc * sx).
    - apply Qmult_le_l; [exact Hw | apply Q.le_min_l].
    - unfold sx. rewrite Qmult_div_r by lra. unfold EDGE_PADDING. lra. }
  assert (Hy : height_pt doc * Qmin sx sy <= height v).
  { apply Qle_trans with (height_pt doc * sy).
    - apply Qmult_le_l; [exact Hh | apply Q.le_min_r].
    - unfold sy. rewrite Qmult_div_r by lra. unfold EDGE_PADDING. lra. }
  apply Qleb_true in Hx. apply Qleb_true in Hy.
  cbv zeta. rewrite Hx, Hy. reflexivity.
Qed.

Lemma fitToViewport_clamped (s : State) :
  positiveDoc (svgDoc s) ->
  getFitValues (svgDoc s) (viewport s) <> None ->
  clamped (fitToViewport s).
Proof.
  intros Hpos Hfit. unfold fitToViewport.
  destruct (getFitValues (svgDoc s) (viewport s)) as [fit|] eqn:E;
    [|contradiction].
  destruct (svgDoc s) as [doc|] eqn:Ed; [|discriminate].
  destruct Hpos as [Hw Hh].
  unfold clamped. cbn. rewrite Ed.
  rewrite (fit_is_clamped doc (viewport s) fit Hw Hh E).
  split; reflexivity.
Qed.

Lemma clamped_resetPageEffect (t : State) :
  clamped t -> clamped (resetPageEffect t).
Proof.
  unfold clamped.
  destruct (resetPageEffect_fields t) as (E1 & E2 & E3 & E4 & _).
  rewrite E1, E2, E3, E4. tauto.
Qed.

(** A wheel event either leaves scale and translate alone or commits a
    clamped translate. *)
Lemma handleWheel_commits (Math_pow : Q -> Q -> Q) (e : WheelEvent.t)
    (rect : DOMRect) (now : Z) (s : State) :
  let s1 := handleWheel Math_pow e rect now s in
  (translate s1 = translate s /\ scale s1 = scale s) \/ clamped s1.
Proof.
  intro s1. unfold s1.
  destruct (WheelEvent.ctrlKey e) eqn:Hc.
  { right. unfold handleWheel. rewrite Hc. cbv zeta.
    eapply clamped_commit. cbn. reflexivity. }
  pose (overflow :=
          getOverflowState (scale s) (translate s) (svgDoc s) (viewport s)).
  destruct (wheelPansX e overflow || wheelPansY e overflow) eqn:Hpan.
  { right. rewrite (handleWheel_pan Math_pow e rect now s Hc Hpan).
    cbv zeta. subst overflow.
    destruct (wheelPansY e _); eapply clamped_commit; cbn; reflexivity. }
  apply orb_false_iff in Hpan. destruct Hpan as [Hx Hy].
  destruct (Qeqb (WheelEvent.deltaY e) 0) eqn:Hz.
  { left. unfold handleWheel. rewrite Hc. cbv zeta.
    fold overflow. rewrite Hx, Hy, Hz. cbn. split; reflexivity. }
  assert (Hr : routesToPageTurn e s = true).
  { unfold routesToPageTurn. cbv zeta. fold overflow.
    rewrite Hc, Hx, Hy, Hz. reflexivity. }
  destruct (isDiscrete e) eqn:Hd.
  { left. rewrite (handleWheel_discrete Math_pow e rect now s Hr Hd).
    cbv zeta. split_conditionals; split; reflexivity. }
  rewrite (handleWheel_continuous Math_pow e rect now s Hr Hd). cbv zeta.
  destruct (Qleb _ _ && _); [|left; split; reflexivity].
  destruct ((1 <=? _) && _)%Z; [|left; split; reflexivity].
  destruct (svgDoc s) as [doc|] eqn:Ed; [|left; split; reflexivity].
  destruct (Qltb _ _); [|left; split; reflexivity].
  right. destruct (0 <? _)%Z; eapply clamped_commit; cbn; rewrite Ed;
    reflexivity.
Qed.

Lemma handlePointerMove_commits (e : PointerEvent.t) (s : State) :
  let s1 := handlePointerMove e s in
  (translate s1 = translate s /\ scale s1 = scale s) \/ clamped s1.
Proof.
  cbv zeta. unfold handlePointerMove.
  destruct (negb (isDragging s)).
  - left. split; reflexivity.
  - right. eapply clamped_commit. cbn. reflexivity.
Qed.

(** The last frame of an animation commits its target. *)
Lemma animate_last_frame (a : Animation) (currentTime : Q) (s : State) :
  0 < duration a -> startTime a + duration a <= currentTime ->
  let s1 := animate a currentTime s in
  scale s1 == targetScale a
  /\ x (translate s1) == targetX a
  /\ y (translate s1) == targetY a
  /\ zoomAnimation s1 = None.
Proof.
  intros Hd Ht s1.
  assert (Hp : Qmin ((currentTime - startTime a) / duration a) 1 == 1).
  { apply Q.min_r. apply Qle_shift_div_l; [exact Hd | lra]. }
  assert (Hb : Qltb (Qmin ((currentTime - startTime a) / duration a) 1) 1 = false).
  { apply Qltb_false. rewrite Hp. lra. }
  assert (He : 1 - (1 - Qmin ((currentTime - startTime a) / duration a) 1) ^ 3
               == 1).
  { rewrite Hp. reflexivity. }
  unfold s1, animate. cbv zeta. rewrite Hb. cbn.
  rewrite He. repeat split; try ring.
Qed.

(** C1, as the code has it. Every event other than an animation frame
    either leaves scale and translate alone or commits a translate that is
    a fixed point of [clampTranslate] at the committed scale (the page of
    the document having a positive size). An animation frame commits the
    interpolation between start and target without clamping it; the last
    frame commits the target, and [handleZoomIn], [handleZoomOut] and
    [handleFit] start their animation with a target that is a fixed point of
    [clampTranslate] at the target scale, for the document and viewport at
    the time of the call. *)
Theorem committed_translate_clamped (Math_pow : Q -> Q -> Q) (ev : Event)
    (s : State) :
  positiveDoc (svgDoc s) ->
  let s1 := handle Math_pow ev s in
  (isAnimationFrame ev = false ->
   (translate s1 = translate s /\ scale s1 = scale s) \/ clamped s1)
  /\ (forall (a : Animation) (currentTime : Q),
        ev = AnimationFrame currentTime ->
        zoomAnimation s = Some a ->
        0 < duration a ->
        startTime a + duration a <= currentTime ->
        targetClamped a s ->
        clamped s1 /\ zoomAnimation s1 = None)
  /\ (forall now : Q,
        exists a : Animation,
          zoomAnimation (handleZoomIn now s) = Some a /\ targetClamped a s)
  /\ (forall now : Q,
        exists a : Animation,
          zoomAnimation (handleZoomOut now s) = Some a /\ targetClamped a s)
  /\ (forall (now : Q) (fit : Fit),
        getFitValues (svgDoc s) (viewport s) = Some fit ->
        exists a : Animation,
          zoomAnimation (handleFit now s) = Some a /\ targetClamped a s).
Proof.
  intros Hpos s1.
  assert (Hreset : forall t : State,
            (translate t = translate s /\ scale t = scale s) \/ clamped t ->
            (translate (resetPageEffect t) = translate s
             /\ scale (resetPageEffect t) = scale s)
            \/ clamped (resetPageEffect t)).
  { intros t [[H1 H2]|H].
    - left. destruct (resetPageEffect_fields t) as (_ & _ & E3 & E4 & _).
      rewrite E3, E4. split; assumption.
    - right. apply clamped_resetPageEffect, H. }
  split; [|split; [|split; [|split]]].
  - intro Hev. unfold s1, handle. apply Hreset.
    destruct ev; cbn [dispatch]; try discriminate Hev.
    + apply handleWheel_commits.
    + left. unfold handlePointerDown. split_conditionals; split; reflexivity.
    + apply handlePointerMove_commits.
    + left. split; reflexivity.
    + left. unfold handleKeyDown, handleZoomIn, handleZoomOut, handleFit,
        animateZoom.
      split_conditionals; split; reflexivity.
    + left. split_conditionals; split; reflexivity.
    + left. split_conditionals; split; reflexivity.
    + left. split; reflexivity.
    + left. split; reflexivity.
    + left. unfold handleFit, animateZoom.
      split_conditionals; split; reflexivity.
    + unfold resizeObserver. cbn [isFitMode setViewport].
      destruct (isFitMode s).
      * destruct (getFitValues (svgDoc (setViewport v s))
                    (viewport (setViewport v s))) as [fit|] eqn:E.
        -- right. apply fitToViewport_clamped; [exact Hpos | congruence].
        -- left. unfold fitToViewport. rewrite E. split; reflexivity.
      * right. eapply clamped_commit. cbn. reflexivity.
    + left. unfold fitOnLoadEffect. cbn. destruct d; split; reflexivity.
    + destruct (fitScheduled s); [|left; split; reflexivity].
      destruct (getFitValues (svgDoc (setFitScheduled false s))
                  (viewport (setFitScheduled false s))) as [fit|] eqn:E.
      * right. apply fitToViewport_clamped; [exact Hpos | congruence].
      * left. unfold fitToViewport. rewrite E. split; reflexivity.
  - intros a currentTime -> Ha Hd Ht Htarget.
    unfold s1, handle. cbn [dispatch]. rewrite Ha.
    destruct (animate_last_frame a currentTime s Hd Ht) as (E1 & E2 & E3 & E4).
    split.
    + apply clamped_resetPageEffect. unfold clamped.
      assert (Ed : svgDoc (animate a currentTime s) = svgDoc s)
        by (unfold animate; cbv zeta; destruct (Qltb _ 1); reflexivity).
      assert (Ev : viewport (animate a currentTime s) = viewport s)
        by (unfold animate; cbv zeta; destruct (Qltb _ 1); reflexivity).
      rewrite Ed, Ev.
      apply sameTranslate_trans with (mkTranslate (targetX a) (targetY a));
        [split; assumption|].
      apply sameTranslate_trans with
        (clampTranslate (targetX a) (targetY a) (targetScale a)
           (svgDoc s) (viewport s)); [exact Htarget|].
      apply clampTranslate_compat; symmetry; assumption.
    + rewrite (proj1 (proj2 (proj2 (proj2 (proj2 (resetPageEffect_fields _)))))).
      exact E4.
  - intro now. eexists. split; [reflexivity|].
    unfold targetClamped. cbn. apply clampTranslate_idempotent.
  - intro now. eexists. split; [reflexivity|].
    unfold targetClamped. cbn. apply clampTranslate_idempotent.
  - intros now fit Hfit. unfold handleFit. cbn. rewrite Hfit.
    eexists. split; [reflexivity|].
    unfold targetClamped. cbn.
    destruct (svgDoc s) as [doc|] eqn:Ed; [|discriminate].
    destruct Hpos as [Hw Hh].
    rewrite (fit_is_clamped doc (viewport s) fit Hw Hh Hfit).
    split; reflexivity.
Qed.

Lemma committed_translate_clamped_witness :
  let s1 := handle powFloor (Wheel (scrollBy 0 30 0) originRect 5000) zoomedIn in
  positiveDoc (svgDoc zoomedIn)
  /\ ~ y (translate s1) == y (translate zoomedIn)
  /\ clamped s1.
Proof.
  intro s1.
  assert (Hpos : positiveDoc (svgDoc zoomedIn)) by (vm_compute; split; reflexivity).
  assert (Hy : ~ y (translate s1) == y (translate zoomedIn))
    by (vm_compute; discriminate).
  split; [exact Hpos|]. split; [exact Hy|].
  destruct (committed_translate_clamped powFloor
              (Wheel (scrollBy 0 30 0) originRect 5000) zoomedIn Hpos)
    as (Hcommit & _).
  destruct (Hcommit eq_refl) as [[Ht _]|Hc]; [|exact Hc].
  exfalso. apply Hy. fold s1 in Ht. rewrite Ht. reflexivity.
Defined.

(** Half way through the animation towards the fit, the frame has committed
    a translate that [clampTranslate] would move: the page fits the height
    of the viewport at the interpolated scale, but is not centred. *)
Lemma animation_frame_not_clamped :
  reachable powFloor midFitAnimation
  /\ scale midFitAnimation == 23 # 32
  /\ y (translate midFitAnimation) == 24
  /\ y (clampTranslate (x (translate midFitAnimation))
          (y (translate midFitAnimation)) (scale midFitAnimation)
          (svgDoc midFitAnimation) (viewport midFitAnimation)) == 123 # 8
  /\ ~ clamped midFitAnimation.
Proof.
  split.
  { unfold midFitAnimation, reachable. apply reachableVia_run.
    - repeat constructor.
    - unfold fittedLetter. apply reachableVia_run.
      + repeat constructor.
      + apply reachable_init. }
  split; [vm_compute; reflexivity|].
  split; [vm_compute; reflexivity|].
  split; [vm_compute; reflexivity|].
  intros [_ H]. vm_compute in H. discriminate H.
Qed.

(** ** Input during an animation *)

(** Of the inputs that manipulate the view directly, only the ctrl-wheel
    zoom cancels a pending animation; the wheel pan and the pointer drag
    leave it pending. *)
Lemma only_ctrl_wheel_cancels (Math_pow : Q -> Q -> Q) (s : State) :
  (forall (e : WheelEvent.t) (rect : DOMRect) (now : Z),
     WheelEvent.ctrlKey e = true ->
     zoomAnimation (handleWheel Math_pow e rect now s) = None)
  /\ (forall (e : WheelEvent.t) (rect : DOMRect) (now : Z),
        WheelEvent.ctrlKey e = false ->
        zoomAnimation (handleWheel Math_pow e rect now s) = zoomAnimation s)
  /\ (forall e : PointerEvent.t,
        zoomAnimation (handlePointerMove e s) = zoomAnimation s).
Proof.
  split; [|split].
  - intros e rect now Hc. unfold handleWheel. rewrite Hc. reflexivity.
  - intros e rect now Hc. apply handleWheel_keeps_scale, Hc.
  - intro e. unfold handlePointerMove. destruct (negb _); reflexivity.
Qed.

(** C8 on the code. A pointer drag and a wheel pan that arrive while a
    zoom animation is under way commit their translate and leave the
    animation pending; the next frame then writes the translate it would
    have written without the input, so what the input committed is lost. *)
Theorem drag_overwritten_by_animation :
  let dragged := run powFloor dragDuringZoom zoomingIn in
  let panned := handle powFloor panDuringZoom zoomingIn in
  let frame := AnimationFrame 3100 in
  zoomAnimation zoomingIn <> None
  /\ y (translate zoomingIn) == -24285 # 256
  /\ y (translate dragged) == -11485 # 256
  /\ zoomAnimation dragged = zoomAnimation zoomingIn
  /\ translate (handle powFloor frame dragged)
     = translate (handle powFloor frame zoomingIn)
  /\ y (translate (handle powFloor frame dragged)) == -3855 # 32
  /\ y (translate panned) == -16605 # 256
  /\ zoomAnimation panned = zoomAnimation zoomingIn
  /\ translate (handle powFloor frame panned)
     = translate (handle powFloor frame zoomingIn)
  /\ y (translate (handle powFloor frame panned)) == -3855 # 32.
Proof.
  cbv zeta.
  repeat (split; [vm_compute; first [reflexivity | discriminate]|]).
  vm_compute; reflexivity.
Qed.

(** * Further properties of the viewer *)

(** ** Geometry *)

(** X1. [clampTranslate] is idempotent: clamping its own result changes
    nothing. *)
Theorem clampTranslate_twice (x0 y0 currentScale : Q)
    (doc : option SvgDocument) (v : Viewport) :
  let r := clampTranslate x0 y0 currentScale doc v in
  sameTranslate (clampTranslate (x r) (y r) currentScale doc v) r.
Proof.
  intro r. unfold sameTranslate.
  destruct (clampTranslate_idempotent x0 y0 currentScale doc v) as [H1 H2].
  fold r in H1, H2. split; symmetry; assumption.
Qed.

(** X2. On an axis where the scaled page is larger than the viewport, the
    page can be panned in at least one direction wherever it is; on an axis
    where it fits, and without a document, it cannot be panned at all. *)
Theorem overflow_iff_some_pan (doc : SvgDocument) (v : Viewport)
    (currentScale : Q) (t : Translate) :
  let o := getOverflowState currentScale t (Some doc) v in
  canPanUp o || canPanDown o = Qltb (height v) (height_pt doc * currentScale)
  /\ canPanLeft o || canPanRight o
     = Qltb (width v) (width_pt doc * currentScale)
  /\ getOverflowState currentScale t None v
     = mkOverflow false false false false.
Proof.
  cbv zeta. unfold getOverflowState. cbn [canPanUp canPanDown canPanLeft canPanRight].
  split; [|split; [|reflexivity]].
  - destruct (Qltb (height v) (height_pt doc * currentScale)) eqn:E;
      [|reflexivity].
    cbn [andb]. apply Qltb_true in E.
    destruct (Qleb EDGE_PADDING (y t)) eqn:E1; [|reflexivity].
    destruct (Qleb (y t) (height v - height_pt doc * currentScale - EDGE_PADDING))
      eqn:E2; [|reflexivity].
    apply Qleb_true in E1. apply Qleb_true in E2.
    unfold EDGE_PADDING in *. lra.
  - destruct (Qltb (width v) (width_pt doc * currentScale)) eqn:E;
      [|reflexivity].
    cbn [andb]. apply Qltb_true in E.
    destruct (Qleb EDGE_PADDING (x t)) eqn:E1; [|reflexivity].
    destruct (Qleb (x t) (width v - width_pt doc * currentScale - EDGE_PADDING))
      eqn:E2; [|reflexivity].
    apply Qleb_true in E1. apply Qleb_true in E2.
    unfold EDGE_PADDING in *. lra.
Qed.

Lemma fit_scaled_page (doc : SvgDocument) (v : Viewport) (fit : Fit) :
  0 < width_pt doc -> 0 < height_pt doc ->
  getFitValues (Some doc) v = Some fit ->
  width_pt doc * fit_scale fit <= width v - 2 * EDGE_PADDING
  /\ height_pt doc * fit_scale fit <= height v - 2 * EDGE_PADDING
  /\ (width_pt doc * fit_scale fit == width v - 2 * EDGE_PADDING
      \/ height_pt doc * fit_scale fit == height v - 2 * EDGE_PADDING).
Proof.
  intros Hw Hh H. apply getFitValues_some in H. subst fit. cbn [fit_scale].
  set (sx := (width v - EDGE_PADDING * 2) / width_pt doc).
  set (sy := (height v - EDGE_PADDING * 2) / height_pt doc).
  assert (Ex : width_pt doc * sx == width v - 2 * EDGE_PADDING)
    by (unfold sx; field; lra).
  assert (Ey : height_pt doc * sy == height v - 2 * EDGE_PADDING)
    by (unfold sy; field; lra).
  split; [|split].
  - rewrite <- Ex. apply Qmult_le_l; [exact Hw | apply Q.le_min_l].
  - rewrite <- Ey. apply Qmult_le_l; [exact Hh | apply Q.le_min_r].
  - destruct (Q.min_spec sx sy) as [[_ E]|[_ E]]; rewrite E; auto.
Qed.

(** X3. The fit of a page of positive size leaves at least [EDGE_PADDING]
    between the page and the viewport on every side, and exactly
    [EDGE_PADDING] on the tighter axis. *)
Theorem fit_leaves_padding (doc : SvgDocument) (v : Viewport) (fit : Fit) :
  0 < width_pt doc -> 0 < height_pt doc ->
  getFitValues (Some doc) v = Some fit ->
  EDGE_PADDING <= fit_x fit
  /\ fit_x fit + width_pt doc * fit_scale fit <= width v - EDGE_PADDING
  /\ EDGE_PADDING <= fit_y fit
  /\ fit_y fit + height_pt doc * fit_scale fit <= height v - EDGE_PADDING
  /\ (fit_x fit == EDGE_PADDING \/ fit_y fit == EDGE_PADDING).
Proof.
  intros Hw Hh H.
  destruct (fit_scaled_page doc v fit Hw Hh H) as (Hx & Hy & Htight).
  assert (Ex : fit_x fit == (width v - width_pt doc * fit_scale fit) / 2)
    by (apply getFitValues_some in H; subst fit; reflexivity).
  assert (Ey : fit_y fit == (height v - height_pt doc * fit_scale fit) / 2)
    by (apply getFitValues_some in H; subst fit; reflexivity).
  unfold EDGE_PADDING in *.
  assert (Ex' : 2 * fit_x fit == width v - width_pt doc * fit_scale fit)
    by (rewrite Ex; field).
  assert (Ey' : 2 * fit_y fit == height v - height_pt doc * fit_scale fit)
    by (rewrite Ey; field).
  split; [lra|]. split; [lra|]. split; [lra|]. split; [lra|].
  destruct Htight as [E|E]; [left | right]; lra.
Qed.

Lemma fit_leaves_padding_witness :
  exists fit : Fit,
    getFitValues (Some letterDoc) viewport800x600 = Some fit
    /\ EDGE_PADDING <= fit_x fit
    /\ EDGE_PADDING <= fit_y fit
    /\ (fit_x fit == EDGE_PADDING \/ fit_y fit == EDGE_PADDING).
Proof.
  eexists. split; [reflexivity|].
  destruct (fit_leaves_padding letterDoc viewport800x600 _
              ltac:(reflexivity) ltac:(reflexivity) eq_refl)
    as (H1 & _ & H2 & _ & H3).
  split; [exact H1|]. split; [exact H2 | exact H3].
Defined.

(** X4. Once a page of positive size is fitted, it cannot be panned in any
    direction, so a wheel event without modifier never pans: with a vertical
    delta it reaches the page-turn branch, whatever its horizontal delta. *)
Theorem fitted_view_turns_pages (s : State) (e : WheelEvent.t) :
  positiveDoc (svgDoc s) ->
  getFitValues (svgDoc s) (viewport s) <> None ->
  let s1 := fitToViewport s in
  getOverflowState (scale s1) (translate s1) (svgDoc s1) (viewport s1)
  = mkOverflow false false false false
  /\ (WheelEvent.ctrlKey e = false ->
      ~ WheelEvent.deltaY e == 0 ->
      routesToPageTurn e s1 = true).
Proof.
  intros Hpos Hfit s1.
  destruct (getFitValues (svgDoc s) (viewport s)) as [fit|] eqn:E;
    [|contradiction].
  destruct (svgDoc s) as [doc|] eqn:Ed; [|discriminate].
  destruct Hpos as [Hw Hh].
  destruct (fit_scaled_page doc (viewport s) fit Hw Hh E) as (Hx & Hy & _).
  assert (Ho : getOverflowState (scale s1) (translate s1) (svgDoc s1)
                 (viewport s1) = mkOverflow false false false false).
  { unfold s1, fitToViewport. rewrite Ed, E. cbn. rewrite Ed.
    unfold getOverflowState.
    assert (H1 : Qltb (width (viewport s)) (width_pt doc * fit_scale fit) = false)
      by (apply Qltb_false; unfold EDGE_PADDING in *; lra).
    assert (H2 : Qltb (height (viewport s)) (height_pt doc * fit_scale fit) = false)
      by (apply Qltb_false; unfold EDGE_PADDING in *; lra).
    rewrite H1, H2. reflexivity. }
  split; [exact Ho|].
  intros Hc Hz. unfold routesToPageTurn. cbv zeta. rewrite Ho, Hc.
  unfold wheelPansX, wheelPansY. cbn [canPanUp canPanDown canPanLeft canPanRight].
  rewrite !andb_false_r. cbn [orb andb negb].
  apply negb_true_iff, Qeqb_false, Hz.
Qed.

Lemma fitted_view_turns_pages_witness :
  let s := setSvgDoc (Some letterDoc) (initialState viewport800x600) in
  positiveDoc (svgDoc s)
  /\ routesToPageTurn (scrollBy 40 3 0) (fitToViewport s) = true.
Proof.
  intro s.
  assert (Hpos : positiveDoc (svgDoc s)) by (split; reflexivity).
  split; [exact Hpos|].
  apply (fitted_view_turns_pages s (scrollBy 40 3 0) Hpos).
  - discriminate.
  - reflexivity.
  - vm_compute. discriminate.
Defined.

(** X5. Fitting is idempotent, and the fit does not depend on the scale and
    translate it replaces: whatever was zoomed or panned before is gone. *)
Theorem fitToViewport_forgets_view (s : State) (q : Q) (t : Translate) :
  fitToViewport (fitToViewport s) = fitToViewport s
  /\ (getFitValues (svgDoc s) (viewport s) <> None ->
      fitToViewport (setTranslate t (setScale q s)) = fitToViewport s).
Proof.
  split.
  - unfold fitToViewport.
    destruct (getFitValues (svgDoc s) (viewport s)) as [fit|] eqn:E.
    + cbn. rewrite E. reflexivity.
    + rewrite E. reflexivity.
  - intro H. unfold fitToViewport. cbn.
    destruct (getFitValues (svgDoc s) (viewport s)); [reflexivity|contradiction].
Qed.

(** ** The wheel handler *)

(** A wheel event without modifier that neither pans nor has a vertical
    delta changes nothing. *)
Lemma handleWheel_idle (Math_pow : Q -> Q -> Q) (e : WheelEvent.t)
    (rect : DOMRect) (now : Z) (s : State) :
  WheelEvent.ctrlKey e = false ->
  let overflow :=
    getOverflowState (scale s) (translate s) (svgDoc s) (viewport s) in
  wheelPansX e overflow = false ->
  wheelPansY e overflow = false ->
  Qeqb (WheelEvent.deltaY e) 0 = true ->
  handleWheel Math_pow e rect now s = s.
Proof.
  intros Hc overflow Hx Hy Hz.
  unfold handleWheel. rewrite Hc. cbv zeta. fold overflow.
  rewrite Hx, Hy, Hz. reflexivity.
Qed.

Lemma routesToPageTurn_intro (e : WheelEvent.t) (s : State) :
  WheelEvent.ctrlKey e = false ->
  let overflow :=
    getOverflowState (scale s) (translate s) (svgDoc s) (viewport s) in
  wheelPansX e overflow = false ->
  wheelPansY e overflow = false ->
  Qeqb (WheelEvent.deltaY e) 0 = false ->
  routesToPageTurn e s = true.
Proof.
  intros Hc overflow Hx Hy Hz. unfold routesToPageTurn. cbv zeta.
  fold overflow. rewrite Hc, Hx, Hy, Hz. reflexivity.
Qed.


(** One axis of a pan: clamping the moved position keeps the direction of
    the move. *)
Lemma pan_axis (v d lo : Q) :
  (lo < v -> 0 < d -> Qmin EDGE_PADDING (Qmax lo (v - d)) < v)
  /\ (v < EDGE_PADDING -> d < 0 -> v < Qmin EDGE_PADDING (Qmax lo (v - d))).
Proof.
  split; intros H1 H2.
  - apply Qle_lt_trans with (Qmax lo (v - d)); [apply Q.le_min_r|].
    apply Q.max_lub_lt; [exact H1 | lra].
  - apply Q.min_glb_lt; [exact H1|].
    apply Qlt_le_trans with (v - d); [lra | apply Q.le_max_r].
Qed.

Lemma wheelPans_inv (d : Q) (canForward canBack : bool) :
  negb (Qeqb d 0) && ((Qltb 0 d && canForward) || (Qltb d 0 && canBack)) = true ->
  (0 < d -> canForward = true) /\ (d < 0 -> canBack = true).
Proof.
  intro H. apply andb_true_iff in H. destruct H as [_ H].
  apply orb_true_iff in H. split; intro Hd.
  - destruct H as [H|H]; apply andb_true_iff in H; destruct H as [H1 H2].
    + exact H2.
    + apply Qltb_true in H1. lra.
  - destruct H as [H|H]; apply andb_true_iff in H; destruct H as [H1 H2].
    + apply Qltb_true in H1. lra.
    + exact H2.
Qed.

(** X7. A wheel pan moves the page against the scroll on the axis it pans:
    a positive delta strictly decreases the coordinate, a negative delta
    strictly increases it, and the coordinate stays between the far bound
    and [EDGE_PADDING]. *)
Theorem wheel_pan_moves_against_scroll (Math_pow : Q -> Q -> Q)
    (e : WheelEvent.t) (rect : DOMRect) (now : Z) (s : State)
    (doc : SvgDocument) :
  WheelEvent.ctrlKey e = false ->
  svgDoc s = Some doc ->
  let overflow :=
    getOverflowState (scale s) (translate s) (svgDoc s) (viewport s) in
  let s1 := handleWheel Math_pow e rect now s in
  (wheelPansY e overflow = true ->
   height (viewport s) - height_pt doc * scale s - EDGE_PADDING
   <= y (translate s1) <= EDGE_PADDING
   /\ (0 < WheelEvent.deltaY e -> y (translate s1) < y (translate s))
   /\ (WheelEvent.deltaY e < 0 -> y (translate s) < y (translate s1)))
  /\ (wheelPansX e overflow = true ->
      width (viewport s) - width_pt doc * scale s - EDGE_PADDING
      <= x (translate s1) <= EDGE_PADDING
      /\ (0 < WheelEvent.deltaX e -> x (translate s1) < x (translate s))
      /\ (WheelEvent.deltaX e < 0 -> x (translate s) < x (translate s1))).
Proof.
  intros Hc Hdoc overflow s1.
  assert (Hm : 0 < (if isDiscrete e then 20 else 1))
    by (destruct (isDiscrete e); reflexivity).
  split; intro Hpan.
  - assert (Hor : wheelPansX e overflow || wheelPansY e overflow = true)
      by (rewrite Hpan; apply orb_true_r).
    assert (E := handleWheel_pan Math_pow e rect now s Hc Hor).
    fold s1 in E. cbv zeta in E. fold overflow in E. rewrite Hpan in E.
    assert (Ey : y (translate s1)
                 = y (clampTranslate 0
                        (y (translate s)
                         - WheelEvent.deltaY e * (if isDiscrete e then 20 else 1))
                        (scale s) (svgDoc s) (viewport s))).
    { rewrite E, Hdoc. reflexivity. }
    unfold wheelPansY in Hpan.
    assert (Hnz : ~ WheelEvent.deltaY e == 0).
    { apply andb_true_iff in Hpan. destruct Hpan as [Hn _].
      apply negb_true_iff, Qeqb_false in Hn. exact Hn. }
    apply wheelPans_inv in Hpan. destruct Hpan as [Hdown Hup].
    unfold overflow, getOverflowState in Hdown, Hup. rewrite Hdoc in Hdown, Hup.
    cbn [canPanUp canPanDown] in Hdown, Hup.
    assert (Hover : height (viewport s) < height_pt doc * scale s).
    { destruct (Q_dec (WheelEvent.deltaY e) 0) as [[Hl|Hg]|He];
        [specialize (Hup Hl) | specialize (Hdown Hg) | contradiction];
        match goal with
        | H : _ && _ = true |- _ =>
            apply andb_true_iff in H; destruct H as [H _];
            apply Qltb_true in H; exact H
        end. }
    rewrite Ey, Hdoc. unfold clampTranslate. cbn [y].
    rewrite (proj2 (Qleb_false _ _) Hover).
    set (lo := height (viewport s) - height_pt doc * scale s - EDGE_PADDING).
    assert (Hlo : lo <= EDGE_PADDING) by (unfold lo, EDGE_PADDING; lra).
    split; [apply Qmin_max_bounds, Hlo|].
    split; intro Hd.
    + specialize (Hdown Hd). apply andb_true_iff in Hdown.
      destruct Hdown as [_ Hb]. apply negb_true_iff, Qleb_false in Hb.
      fold lo in Hb. apply pan_axis; [exact Hb|].
      destruct (isDiscrete e); lra.
    + specialize (Hup Hd). apply andb_true_iff in Hup.
      destruct Hup as [_ Hb]. apply negb_true_iff, Qleb_false in Hb.
      apply pan_axis; [exact Hb|].
      destruct (isDiscrete e); lra.
  - assert (Hor : wheelPansX e overflow || wheelPansY e overflow = true)
      by (rewrite Hpan; reflexivity).
    assert (E := handleWheel_pan Math_pow e rect now s Hc Hor).
    fold s1 in E. cbv zeta in E. fold overflow in E. rewrite Hpan in E.
    assert (Ex : x (translate s1)
                 = x (clampTranslate
                        (x (translate s)
                         - WheelEvent.deltaX e * (if isDiscrete e then 20 else 1))
                        0 (scale s) (svgDoc s) (viewport s))).
    { rewrite E, Hdoc. destruct (wheelPansY e overflow); reflexivity. }
    unfold wheelPansX in Hpan.
    assert (Hnz : ~ WheelEvent.deltaX e == 0).
    { apply andb_true_iff in Hpan. destruct Hpan as [Hn _].
      apply negb_true_iff, Qeqb_false in Hn. exact Hn. }
    apply wheelPans_inv in Hpan. destruct Hpan as [Hright Hleft].
    unfold overflow, getOverflowState in Hright, Hleft.
    rewrite Hdoc in Hright, Hleft.
    cbn [canPanLeft canPanRight] in Hright, Hleft.
    assert (Hover : width (viewport s) < width_pt doc * scale s).
    { destruct (Q_dec (WheelEvent.deltaX e) 0) as [[Hl|Hg]|He];
        [specialize (Hleft Hl) | specialize (Hright Hg) | contradiction];
        match goal with
        | H : _ && _ = true |- _ =>
            apply andb_true_iff in H; destruct H as [H _];
            apply Qltb_true in H; exact H
        end. }
    rewrite Ex, Hdoc. unfold clampTranslate. cbn [x].
    rewrite (proj2 (Qleb_false _ _) Hover).
    set (lo := width (viewport s) - width_pt doc * scale s - EDGE_PADDING).
    assert (Hlo : lo <= EDGE_PADDING) by (unfold lo, EDGE_PADDING; lra).
    split; [apply Qmin_max_bounds, Hlo|].
    split; intro Hd.
    + specialize (Hright Hd). apply andb_true_iff in Hright.
      destruct Hright as [_ Hb]. apply negb_true_iff, Qleb_false in Hb.
      fold lo in Hb. apply pan_axis; [exact Hb|].
      destruct (isDiscrete e); lra.
    + specialize (Hleft Hd). apply andb_true_iff in Hleft.
      destruct Hleft as [_ Hb]. apply negb_true_iff, Qleb_false in Hb.
      apply pan_axis; [exact Hb|].
      destruct (isDiscrete e); lra.
Qed.

Lemma wheel_pan_moves_against_scroll_witness :
  let s1 := handleWheel powFloor (scrollBy 0 30 0) originRect 5000 zoomedIn in
  svgDoc zoomedIn = Some letterDoc
  /\ y (translate s1) < y (translate zoomedIn)
  /\ y (translate s1) <= EDGE_PADDING.
Proof.
  intro s1.
  assert (Hdoc : svgDoc zoomedIn = Some letterDoc) by (vm_compute; reflexivity).
  split; [exact Hdoc|].
  destruct (wheel_pan_moves_against_scroll powFloor (scrollBy 0 30 0)
              originRect 5000 zoomedIn letterDoc eq_refl Hdoc) as [Hy _].
  destruct Hy as ([_ Hb] & Hdown & _); [vm_compute; reflexivity|].
  split; [apply Hdown; reflexivity | exact Hb].
Defined.

(** Without modifier, a wheel event leaves the translate alone or commits
    a translate computed by [clampTranslate] at the scale of the state. *)
Lemma handleWheel_translate_form (Math_pow : Q -> Q -> Q) (e : WheelEvent.t)
    (rect : DOMRect) (now : Z) (s : State) :
  WheelEvent.ctrlKey e = false ->
  let s1 := handleWheel Math_pow e rect now s in
  translate s1 = translate s
  \/ exists x0 y0 : Q,
       translate s1 = clampTranslate x0 y0 (scale s) (svgDoc s) (viewport s).
Proof.
  intros Hc s1. unfold s1.
  pose (overflow :=
          getOverflowState (scale s) (translate s) (svgDoc s) (viewport s)).
  destruct (wheelPansX e overflow || wheelPansY e overflow) eqn:Hpan.
  { right. rewrite (handleWheel_pan Math_pow e rect now s Hc Hpan).
    cbv zeta. subst overflow.
    destruct (wheelPansY e _); do 2 eexists; reflexivity. }
  apply orb_false_iff in Hpan. destruct Hpan as [Hx Hy].
  destruct (Qeqb (WheelEvent.deltaY e) 0) eqn:Hz.
  { left. rewrite (handleWheel_idle Math_pow e rect now s Hc Hx Hy Hz).
    reflexivity. }
  assert (Hr := routesToPageTurn_intro e s Hc Hx Hy Hz).
  destruct (isDiscrete e) eqn:Hd.
  { left. rewrite (handleWheel_discrete Math_pow e rect now s Hr Hd).
    cbv zeta. split_conditionals; reflexivity. }
  rewrite (handleWheel_continuous Math_pow e rect now s Hr Hd). cbv zeta.
  destruct (Qleb _ _ && _); [|left; reflexivity].
  destruct ((1 <=? _) && _)%Z; [|left; reflexivity].
  destruct (svgDoc s) as [doc|] eqn:Ed; [|left; reflexivity].
  destruct (Qltb _ _); [|left; reflexivity].
  right. destruct (0 <? _)%Z; do 2 eexists; reflexivity.
Qed.

(** X8. From a clamped position, on an axis where the scaled page fits the
    viewport, neither a wheel event without modifier nor a pointer move
    changes the coordinate, whatever the size of the delta. *)
Theorem fitting_axis_never_moves (Math_pow : Q -> Q -> Q) (e : WheelEvent.t)
    (rect : DOMRect) (now : Z) (pe : PointerEvent.t) (s : State)
    (doc : SvgDocument) :
  clamped s ->
  svgDoc s = Some doc ->
  WheelEvent.ctrlKey e = false ->
  (width_pt doc * scale s <= width (viewport s) ->
   x (translate (handleWheel Math_pow e rect now s)) == x (translate s)
   /\ x (translate (handlePointerMove pe s)) == x (translate s))
  /\ (height_pt doc * scale s <= height (viewport s) ->
      y (translate (handleWheel Math_pow e rect now s)) == y (translate s)
      /\ y (translate (handlePointerMove pe s)) == y (translate s)).
Proof.
  intros Hcl Hdoc Hc.
  destruct Hcl as [Hcx Hcy]. rewrite Hdoc in Hcx, Hcy.
  unfold clampTranslate in Hcx, Hcy. cbn [x y] in Hcx, Hcy.
  assert (Hmove : translate (handlePointerMove pe s) = translate s
                  \/ exists x0 y0 : Q,
                       translate (handlePointerMove pe s)
                       = clampTranslate x0 y0 (scale s) (svgDoc s) (viewport s)).
  { unfold handlePointerMove. destruct (negb (isDragging s)).
    - left. reflexivity.
    - right. do 2 eexists. reflexivity. }
  assert (Hwheel := handleWheel_translate_form Math_pow e rect now s Hc).
  cbv zeta in Hwheel.
  split; intro Hfit; apply Qleb_true in Hfit; rewrite Hfit in *.
  - split; [destruct Hwheel as [E|(x0 & y0 & E)]
           | destruct Hmove as [E|(x0 & y0 & E)]];
      rewrite E; try reflexivity;
      rewrite Hdoc; unfold clampTranslate; cbn [x]; rewrite Hfit;
      symmetry; exact Hcx.
  - split; [destruct Hwheel as [E|(x0 & y0 & E)]
           | destruct Hmove as [E|(x0 & y0 & E)]];
      rewrite E; try reflexivity;
      rewrite Hdoc; unfold clampTranslate; cbn [y]; rewrite Hfit;
      symmetry; exact Hcy.
Qed.

Lemma fitting_axis_never_moves_witness :
  let s := handlePointerDown (PointerEvent.mk 0 false 10 10) fittedLetter in
  clamped s
  /\ x (translate (handleWheel powFloor (scrollBy 500 0 0) originRect 5000 s))
     == x (translate s)
  /\ y (translate (handlePointerMove (PointerEvent.mk 0 false 300 900) s))
     == y (translate s).
Proof.
  intro s.
  assert (Hcl : clamped s) by (split; vm_compute; reflexivity).
  assert (Hdoc : svgDoc s = Some letterDoc) by (vm_compute; reflexivity).
  destruct (fitting_axis_never_moves powFloor (scrollBy 500 0 0) originRect
              5000 (PointerEvent.mk 0 false 300 900) s letterDoc Hcl Hdoc
              eq_refl) as [Hx Hy].
  split; [exact Hcl|]. split.
  - apply Hx. vm_compute. discriminate.
  - apply Hy. vm_compute. discriminate.
Defined.

(** ** The keyboard *)

Lemma handleKeyDown_next (e : KeyboardEvent.t) (now : Q) (s : State) :
  KeyboardEvent.key e = "ArrowRight"%string
  \/ KeyboardEvent.key e = "ArrowDown"%string ->
  handleKeyDown e false now s
  = setCurrentPage (Z.min (currentPage s + 1) (pagesLengthOr1 s)) s.
Proof.
  intros [E|E]; unfold handleKeyDown; rewrite E; reflexivity.
Qed.

Lemma handleKeyDown_prev (e : KeyboardEvent.t) (now : Q) (s : State) :
  KeyboardEvent.key e = "ArrowLeft"%string
  \/ KeyboardEvent.key e = "ArrowUp"%string ->
  handleKeyDown e false now s = setCurrentPage (Z.max (currentPage s - 1) 1) s.
Proof.
  intros [E|E]; unfold handleKeyDown; rewrite E; reflexivity.
Qed.

(** X9. Pressing a forward arrow key [k >= 1] times moves [k] pages on and
    stops at the last page; pressing a backward arrow key [k >= 1] times
    moves [k] pages back and stops at page 1. Nothing but the current page
    changes, whatever the modifiers held. *)
Theorem arrow_keys_walk_pages (e : KeyboardEvent.t) (k : nat) (s : State) :
  (KeyboardEvent.key e = "ArrowRight"%string
   \/ KeyboardEvent.key e = "ArrowDown"%string ->
   pressTimes (S k) e s
   = setCurrentPage
       (Z.min (currentPage s + Z.of_nat (S k)) (pagesLengthOr1 s)) s)
  /\ (KeyboardEvent.key e = "ArrowLeft"%string
      \/ KeyboardEvent.key e = "ArrowUp"%string ->
      pressTimes (S k) e s
      = setCurrentPage (Z.max (currentPage s - Z.of_nat (S k)) 1) s).
Proof.
  split; intro Hkey.
  - induction k as [|k IH].
    + unfold pressTimes. cbn [Nat.iter]. apply handleKeyDown_next, Hkey.
    + change (pressTimes (S (S k)) e s)
        with (handleKeyDown e false 0 (pressTimes (S k) e s)).
      rewrite IH.
      rewrite (handleKeyDown_next e 0 _ Hkey). cbn.
      unfold setCurrentPage, pagesLengthOr1. cbn. f_equal.
      destruct (svgDoc s); lia.
  - induction k as [|k IH].
    + unfold pressTimes. cbn [Nat.iter]. apply handleKeyDown_prev, Hkey.
    + change (pressTimes (S (S k)) e s)
        with (handleKeyDown e false 0 (pressTimes (S k) e s)).
      rewrite IH.
      rewrite (handleKeyDown_prev e 0 _ Hkey).
      unfold setCurrentPage. cbn. f_equal. lia.
Qed.

Lemma arrow_keys_walk_pages_witness :
  currentPage (pressTimes 2 (KeyboardEvent.mk "ArrowDown" true false) fittedLetter)
  = 3%Z
  /\ currentPage (pressTimes 5 (KeyboardEvent.mk "ArrowDown" true false) fittedLetter)
     = 3%Z
  /\ currentPage (pressTimes 7 (KeyboardEvent.mk "ArrowUp" false false) atLastPage)
     = 1%Z.
Proof.
  split; [|split].
  - rewrite (proj1 (arrow_keys_walk_pages _ 1 fittedLetter)) by (right; reflexivity).
    vm_compute. reflexivity.
  - rewrite (proj1 (arrow_keys_walk_pages _ 4 fittedLetter)) by (right; reflexivity).
    vm_compute. reflexivity.
  - rewrite (proj2 (arrow_keys_walk_pages _ 6 atLastPage)) by (right; reflexivity).
    vm_compute. reflexivity.
Defined.

(** ** The animation *)

Lemma resetPageEffect_idempotent (s : State) :
  resetPageEffect (resetPageEffect s) = resetPageEffect s.
Proof.
  unfold resetPageEffect.
  destruct ((numPages s <? currentPage s) && (0 <? numPages s))%Z eqn:E.
  - change (numPages (setCurrentPage 1 s)) with (numPages s).
    change (currentPage (setCurrentPage 1 s)) with 1%Z.
    destruct ((numPages s <? 1) && (0 <? numPages s))%Z eqn:E'; [|reflexivity].
    apply andb_true_iff in E'. destruct E' as [E1 E2].
    apply Z.ltb_lt in E1. apply Z.ltb_lt in E2. lia.
  - rewrite E. reflexivity.
Qed.

Lemma animate_fields (a : Animation) (currentTime : Q) (s : State) :
  let eased :=
    1 - (1 - Qmin ((currentTime - startTime a) / duration a) 1) ^ 3 in
  scale (animate a currentTime s)
  = startScale a + (targetScale a - startScale a) * eased
  /\ x (translate (animate a currentTime s))
     = startX a + (targetX a - startX a) * eased
  /\ y (translate (animate a currentTime s))
     = startY a + (targetY a - startY a) * eased.
Proof.
  unfold animate. cbv zeta. destruct (Qltb _ 1); repeat split; reflexivity.
Qed.

(** X10. An animation stays pending until a frame stamped at or after its
    start plus its duration; that frame commits the target scale and
    translate and ends the animation, and every later frame changes
    nothing. *)
Theorem animation_runs_until_its_end (Math_pow : Q -> Q -> Q) (s : State)
    (a : Animation) (currentTime : Q) :
  zoomAnimation s = Some a ->
  0 < duration a ->
  let s1 := handle Math_pow (AnimationFrame currentTime) s in
  (currentTime < startTime a + duration a -> zoomAnimation s1 = Some a)
  /\ (startTime a + duration a <= currentTime ->
      zoomAnimation s1 = None
      /\ scale s1 == targetScale a
      /\ x (translate s1) == targetX a
      /\ y (translate s1) == targetY a
      /\ forall later : Q, handle Math_pow (AnimationFrame later) s1 = s1).
Proof.
  intros Ha Hd s1.
  destruct (resetPageEffect_fields (dispatch Math_pow (AnimationFrame currentTime) s))
    as (_ & _ & E3 & E4 & E5 & _).
  unfold s1, handle. rewrite E3, E4, E5. cbn [dispatch]. rewrite Ha.
  split.
  - intro Ht. unfold animate. cbv zeta.
    assert (Hb : Qltb (Qmin ((currentTime - startTime a) / duration a) 1) 1 = true).
    { apply Qltb_true. apply Qle_lt_trans with ((currentTime - startTime a) / duration a);
        [apply Q.le_min_l|].
      apply Qlt_shift_div_r; [exact Hd | lra]. }
    rewrite Hb. reflexivity.
  - intro Ht.
    destruct (animate_last_frame a currentTime s Hd Ht) as (H1 & H2 & H3 & H4).
    repeat split; try assumption.
    intro later. cbn [dispatch].
    rewrite (proj1 (proj2 (proj2 (proj2 (proj2
               (resetPageEffect_fields (animate a currentTime s))))))), H4.
    apply resetPageEffect_idempotent.
Qed.

Lemma animation_runs_until_its_end_witness :
  let s := handle powFloor (ClickZoomIn 2000) fittedLetter in
  zoomAnimation (handle powFloor (AnimationFrame 2100) s) <> None
  /\ zoomAnimation (handle powFloor (AnimationFrame 2200) s) = None
  /\ scale (handle powFloor (AnimationFrame 2200) s) == 115 # 132.
Proof.
  intro s.
  assert (Ha : exists a, zoomAnimation s = Some a /\ 0 < duration a
                         /\ startTime a = 2000 /\ duration a = 200
                         /\ targetScale a == 115 # 132).
  { eexists. split; [vm_compute; reflexivity|].
    repeat split; vm_compute; reflexivity. }
  destruct Ha as (a & Ha & Hd & Hs & Hdur & Ht).
  split.
  - rewrite (proj1 (animation_runs_until_its_end powFloor s a 2100 Ha Hd));
      [discriminate | rewrite Hs, Hdur; reflexivity].
  - destruct (proj2 (animation_runs_until_its_end powFloor s a 2200 Ha Hd))
      as (H1 & H2 & _); [rewrite Hs, Hdur; vm_compute; discriminate|].
    split; [exact H1 | rewrite H2; exact Ht].
Defined.

(** X11. A frame not stamped before the start of its animation never
    overshoots: the scale and both coordinates it commits lie between the
    start and the target values. *)
Theorem animation_never_overshoots (Math_pow : Q -> Q -> Q) (s : State)
    (a : Animation) (currentTime : Q) :
  zoomAnimation s = Some a ->
  0 < duration a ->
  startTime a <= currentTime ->
  let s1 := handle Math_pow (AnimationFrame currentTime) s in
  Qmin (startScale a) (targetScale a) <= scale s1
  <= Qmax (startScale a) (targetScale a)
  /\ Qmin (startX a) (targetX a) <= x (translate s1)
     <= Qmax (startX a) (targetX a)
  /\ Qmin (startY a) (targetY a) <= y (translate s1)
     <= Qmax (startY a) (targetY a).
Proof.
  intros Ha Hd Ht s1.
  destruct (resetPageEffect_fields (dispatch Math_pow (AnimationFrame currentTime) s))
    as (_ & _ & E3 & E4 & _).
  unfold s1, handle. rewrite E3, E4. cbn [dispatch]. rewrite Ha.
  destruct (animate_fields a currentTime s) as (F1 & F2 & F3).
  cbv zeta in F1, F2, F3. rewrite F1, F2, F3.
  assert (He : 0 <= 1 - (1 - Qmin ((currentTime - startTime a) / duration a) 1) ^ 3
               <= 1).
  { apply eased_bounds, progress_bounds; [lra | exact Hd]. }
  assert (Hb : forall p q : Q,
            Qmin p q <= p <= Qmax p q /\ Qmin p q <= q <= Qmax p q).
  { intros p q. repeat split;
      [apply Q.le_min_l | apply Q.le_max_l | apply Q.le_min_r | apply Q.le_max_r]. }
  split; [|split]; apply interpolation_bounds; try exact He; apply Hb.
Qed.

Lemma animation_never_overshoots_witness :
  let s := handle powFloor (ClickZoomIn 2000) fittedLetter in
  let s1 := handle powFloor (AnimationFrame 2050) s in
  scale fittedLetter <= scale s1 <= 115 # 132.
Proof.
  intros s s1.
  assert (Ha : exists a, zoomAnimation s = Some a /\ 0 < duration a
                         /\ startTime a <= 2050
                         /\ startScale a = scale fittedLetter
                         /\ targetScale a == 115 # 132
                         /\ startScale a <= targetScale a).
  { eexists. split; [vm_compute; reflexivity|].
    repeat split; vm_compute; first [reflexivity | discriminate]. }
  destruct Ha as (a & Ha & Hd & Hs & Hst & Ht & Hle).
  destruct (animation_never_overshoots powFloor s a 2050 Ha Hd Hs)
    as ([H1 H2] & _).
  fold s1 in H1, H2.
  rewrite (Q.min_l _ _ Hle) in H1. rewrite (Q.max_r _ _ Hle) in H2.
  rewrite Hst in H1. rewrite Ht in H2. split; assumption.
Defined.

Lemma handle_last_frame (Math_pow : Q -> Q -> Q) (s : State) (a : Animation)
    (currentTime : Q) :
  zoomAnimation s = Some a ->
  0 < duration a ->
  startTime a + duration a <= currentTime ->
  scale (handle Math_pow (AnimationFrame currentTime) s) == targetScale a
  /\ zoomAnimation (handle Math_pow (AnimationFrame currentTime) s) = None.
Proof.
  intros Ha Hd Ht.
  destruct (resetPageEffect_fields (dispatch Math_pow (AnimationFrame currentTime) s))
    as (_ & _ & E3 & _ & E5 & _).
  unfold handle. rewrite E3, E5. cbn [dispatch]. rewrite Ha.
  destruct (animate_last_frame a currentTime s Hd Ht) as (H1 & _ & _ & H4).
  split; assumption.
Qed.

Lemma handle_zoom_animation (Math_pow : Q -> Q -> Q) (now : Q) (s : State) :
  (exists a : Animation,
     zoomAnimation (handle Math_pow (ClickZoomIn now) s) = Some a
     /\ startTime a = now /\ duration a = ZOOM_ANIMATION_DURATION
     /\ targetScale a = Qmin 4 (scale s * (5 # 4)))
  /\ (exists a : Animation,
        zoomAnimation (handle Math_pow (ClickZoomOut now) s) = Some a
        /\ startTime a = now /\ duration a = ZOOM_ANIMATION_DURATION
        /\ targetScale a = Qmax (1 # 10) (scale s / (5 # 4))).
Proof.
  split; eexists; unfold handle;
    rewrite (proj1 (proj2 (proj2 (proj2 (proj2 (resetPageEffect_fields _))))));
    cbn; repeat split; reflexivity.
Qed.

(** X12. Zooming in and then out with the buttons, each animation run to
    its end, restores the scale, provided neither step was cut by the zoom
    bounds: the scale was at least 0.1 and at most 4 / 1.25. *)
Theorem zoom_in_then_out_restores_scale (Math_pow : Q -> Q -> Q) (s : State)
    (t0 t1 t2 t3 : Q) :
  1 # 10 <= scale s ->
  scale s * (5 # 4) <= 4 ->
  t0 + ZOOM_ANIMATION_DURATION <= t1 ->
  t2 + ZOOM_ANIMATION_DURATION <= t3 ->
  let s1 :=
    run Math_pow
      [ClickZoomIn t0; AnimationFrame t1; ClickZoomOut t2; AnimationFrame t3] s in
  scale s1 == scale s /\ zoomAnimation s1 = None.
Proof.
  intros Hlo Hhi H01 H23 s1. unfold s1, run. cbn [fold_left].
  set (sa := handle Math_pow (ClickZoomIn t0) s).
  set (sb := handle Math_pow (AnimationFrame t1) sa).
  set (sc := handle Math_pow (ClickZoomOut t2) sb).
  assert (Hd : 0 < ZOOM_ANIMATION_DURATION) by reflexivity.
  destruct (proj1 (handle_zoom_animation Math_pow t0 s))
    as (a & Ha & Hst & Hdur & Htarget).
  fold sa in Ha.
  destruct (handle_last_frame Math_pow sa a t1 Ha) as [Hb _];
    [rewrite Hdur; exact Hd | rewrite Hst, Hdur; exact H01 |].
  fold sb in Hb.
  assert (Hsb : scale sb == scale s * (5 # 4)).
  { rewrite Hb, Htarget. apply Q.min_r. exact Hhi. }
  destruct (proj2 (handle_zoom_animation Math_pow t2 sb))
    as (a' & Ha' & Hst' & Hdur' & Htarget').
  fold sc in Ha'.
  destruct (handle_last_frame Math_pow sc a' t3 Ha') as [Hc Hnone];
    [rewrite Hdur'; exact Hd | rewrite Hst', Hdur'; exact H23 |].
  split; [|exact Hnone].
  rewrite Hc, Htarget'.
  assert (E : scale sb / (5 # 4) == scale s) by (rewrite Hsb; field).
  rewrite E. apply Q.max_r. exact Hlo.
Qed.

Lemma zoom_in_then_out_restores_scale_witness :
  scale (run powFloor
           [ClickZoomIn 100; AnimationFrame 300; ClickZoomOut 400;
            AnimationFrame 650] fittedLetter)
  == scale fittedLetter.
Proof.
  apply (zoom_in_then_out_restores_scale powFloor fittedLetter 100 300 400 650);
    vm_compute; discriminate.
Defined.

(** ** Zooming with the wheel *)

(** X13. A ctrl-wheel zoom is anchored at the pointer: on an axis where the
    zoomed page is larger than the viewport and the anchored position needs
    no clamping, the point of the page under the pointer is the same before
    and after the zoom. *)
Theorem wheel_zoom_keeps_point_under_pointer (Math_pow : Q -> Q -> Q)
    (e : WheelEvent.t) (rect : DOMRect) (now : Z) (s : State)
    (doc : SvgDocument) :
  WheelEvent.ctrlKey e = true ->
  svgDoc s = Some doc ->
  ~ scale s == 0 ->
  let s1 := handleWheel Math_pow e rect now s in
  let px := pointerX e rect in
  let py := pointerY e rect in
  let anchoredX := px - (px - x (translate s)) * (scale s1 / scale s) in
  let anchoredY := py - (py - y (translate s)) * (scale s1 / scale s) in
  (width (viewport s) < width_pt doc * scale s1 ->
   width (viewport s) - width_pt doc * scale s1 - EDGE_PADDING <= anchoredX
   <= EDGE_PADDING ->
   (px - x (translate s1)) / scale s1 == (px - x (translate s)) / scale s)
  /\ (height (viewport s) < height_pt doc * scale s1 ->
      height (viewport s) - height_pt doc * scale s1 - EDGE_PADDING <= anchoredY
      <= EDGE_PADDING ->
      (py - y (translate s1)) / scale s1 == (py - y (translate s)) / scale s).
Proof.
  intros Hc Hdoc Hs s1 px py anchoredX anchoredY.
  pose (newScale :=
          Qmin 4 (Qmax (1 # 10)
                    (scale s * Math_pow (199 # 200) (WheelEvent.deltaY e)))).
  assert (Hscale : scale s1 = newScale)
    by (unfold s1, handleWheel; rewrite Hc; reflexivity).
  assert (Hpos : ~ scale s1 == 0).
  { rewrite Hscale. destruct (wheelZoom_bounds
      (scale s * Math_pow (199 # 200) (WheelEvent.deltaY e))) as [H _].
    fold newScale in H. lra. }
  assert (Hx : x (translate s1)
               = x (clampTranslate anchoredX anchoredY newScale (Some doc)
                      (viewport s))).
  { unfold s1, handleWheel. rewrite Hc. cbn. rewrite Hdoc.
    unfold anchoredX, anchoredY, px, py, pointerX, pointerY.
    rewrite Hscale. reflexivity. }
  assert (Hy : y (translate s1)
               = y (clampTranslate anchoredX anchoredY newScale (Some doc)
                      (viewport s))).
  { unfold s1, handleWheel. rewrite Hc. cbn. rewrite Hdoc.
    unfold anchoredX, anchoredY, px, py, pointerX, pointerY.
    rewrite Hscale. reflexivity. }
  split; intros Hover Hin.
  - assert (E : x (translate s1) == anchoredX).
    { rewrite Hx. unfold clampTranslate. cbn [x]. rewrite <- Hscale.
      rewrite (proj2 (Qleb_false _ _) Hover).
      apply Qmin_max_fixed. exact Hin. }
    rewrite E. unfold anchoredX. field. split; assumption.
  - assert (E : y (translate s1) == anchoredY).
    { rewrite Hy. unfold clampTranslate. cbn [y]. rewrite <- Hscale.
      rewrite (proj2 (Qleb_false _ _) Hover).
      apply Qmin_max_fixed. exact Hin. }
    rewrite E. unfold anchoredY. field. split; assumption.
Qed.

Lemma wheel_zoom_keeps_point_under_pointer_witness :
  let e := WheelEvent.mk true 0 (-10) 0 400 300 in
  let s1 := handleWheel powFloor e originRect 5000 zoomedIn in
  scale zoomedIn < scale s1
  /\ (400 - x (translate s1)) / scale s1
     == (400 - x (translate zoomedIn)) / scale zoomedIn.
Proof.
  intros e s1.
  split; [vm_compute; reflexivity|].
  assert (Hdoc : svgDoc zoomedIn = Some letterDoc) by (vm_compute; reflexivity).
  assert (Hs : ~ scale zoomedIn == 0) by (vm_compute; discriminate).
  destruct (wheel_zoom_keeps_point_under_pointer powFloor e originRect 5000
              zoomedIn letterDoc eq_refl Hdoc Hs) as [Hx _].
  cbv zeta in Hx.
  assert (E : pointerX e originRect == 400) by (vm_compute; reflexivity).
  rewrite E in Hx. apply Hx.
  - vm_compute. reflexivity.
  - split; vm_compute; discriminate.
Defined.

(** ** Dragging *)

(** X14. A drag follows the pointer one to one: a move commits the clamped
    translate displaced by the pointer's displacement since the press, and
    as long as a move was not cut by the clamp, moving on gives what a
    single move to the final position gives. A press with another button or
    on a button of the overlay starts no drag, and after the release a move
    changes nothing. *)
Theorem drag_follows_pointer (down p1 p2 : PointerEvent.t) (s : State) :
  let s0 := handlePointerDown down s in
  let s1 := handlePointerMove p1 s0 in
  let s2 := handlePointerMove p2 s1 in
  let dx := PointerEvent.clientX p1 - PointerEvent.clientX down in
  let dy := PointerEvent.clientY p1 - PointerEvent.clientY down in
  (PointerEvent.button down = 0%Z ->
   PointerEvent.targetClosestButton down = false ->
   translate s1
   = clampTranslate (x (translate s) + dx) (y (translate s) + dy) (scale s)
       (svgDoc s) (viewport s)
   /\ (sameTranslate (translate s1)
         (mkTranslate (x (translate s) + dx) (y (translate s) + dy)) ->
       sameTranslate (translate s2) (translate (handlePointerMove p2 s0))))
  /\ (isDragging s = false ->
      PointerEvent.button down <> 0%Z
      \/ PointerEvent.targetClosestButton down = true ->
      s1 = s)
  /\ handlePointerMove p2 (handlePointerUp s1) = handlePointerUp s1.
Proof.
  intros s0 s1 s2 dx dy. split; [|split].
  - intros Hb Ht.
    assert (E0 : s0 = setLastPointer
                        (mkTranslate (PointerEvent.clientX down)
                           (PointerEvent.clientY down))
                        (setIsDragging true s)).
    { unfold s0, handlePointerDown. rewrite Hb, Ht. reflexivity. }
    assert (E1 : translate s1
                 = clampTranslate (x (translate s) + dx) (y (translate s) + dy)
                     (scale s) (svgDoc s) (viewport s)).
    { unfold s1. rewrite E0. reflexivity. }
    split; [exact E1|].
    intros [Hx Hy]. cbn [x y] in Hx, Hy.
    unfold s2, s1. rewrite E0. unfold handlePointerMove. cbn.
    apply clampTranslate_compat; try reflexivity.
    + fold dx dy. rewrite E1 in Hx. unfold dx in *.
      change (x (clampTranslate
                   (x (translate s)
                    + (PointerEvent.clientX p1 - PointerEvent.clientX down))
                   (y (translate s) + dy) (scale s) (svgDoc s) (viewport s))
              + (PointerEvent.clientX p2 - PointerEvent.clientX p1)
              == x (translate s)
                 + (PointerEvent.clientX p2 - PointerEvent.clientX down)).
      rewrite Hx. ring.
    + fold dx dy. rewrite E1 in Hy. unfold dy in *.
      change (y (clampTranslate (x (translate s) + dx)
                   (y (translate s)
                    + (PointerEvent.clientY p1 - PointerEvent.clientY down))
                   (scale s) (svgDoc s) (viewport s))
              + (PointerEvent.clientY p2 - PointerEvent.clientY p1)
              == y (translate s)
                 + (PointerEvent.clientY p2 - PointerEvent.clientY down)).
      rewrite Hy. ring.
  - intros Hd Hno.
    assert (E0 : s0 = s).
    { unfold s0, handlePointerDown. destruct Hno as [Hb|Ht].
      - apply Z.eqb_neq in Hb. rewrite Hb. reflexivity.
      - rewrite Ht. destruct (negb _); reflexivity. }
    unfold s1. rewrite E0. unfold handlePointerMove. rewrite Hd. reflexivity.
  - reflexivity.
Qed.

(** * The remembered directories and the proposed file name *)

(** ** Strings *)

Lemma lastIndexOf_lower (c : N) (s : JS.str) : (-1 <= JS.lastIndexOf c s)%Z.
Proof.
  induction s as [|u s IH]; cbn; [lia|].
  destruct (0 <=? JS.lastIndexOf c s)%Z eqn:E; [apply Z.leb_le in E; lia|].
  destruct (u =? c)%N; lia.
Qed.

Lemma lastIndexOf_absent (c : N) (s : JS.str) :
  ~ In c s -> JS.lastIndexOf c s = (-1)%Z.
Proof.
  induction s as [|u s IH]; intro H; cbn; [reflexivity|].
  rewrite IH by (intro; apply H; right; assumption). cbn.
  destruct (u =? c)%N eqn:E; [|reflexivity].
  apply N.eqb_eq in E. exfalso. apply H. left. exact E.
Qed.

Lemma lastIndexOf_last (c : N) (d n : JS.str) :
  ~ In c n -> JS.lastIndexOf c (d ++ c :: n) = Z.of_nat (List.length d).
Proof.
  intro H. induction d as [|u d IH].
  - cbn. rewrite (lastIndexOf_absent c n H). cbn. rewrite N.eqb_refl. reflexivity.
  - cbn [app JS.lastIndexOf List.length]. rewrite IH.
    rewrite (proj2 (Z.leb_le 0 _)) by lia. lia.
Qed.

(** What [lastIndexOf] finds: nothing, or the cut at the last [c]. *)
Lemma lastIndexOf_cut (c : N) (s : JS.str) :
  (JS.lastIndexOf c s = (-1)%Z /\ ~ In c s)
  \/ exists d n : JS.str,
       s = d ++ c :: n /\ ~ In c n
       /\ JS.lastIndexOf c s = Z.of_nat (List.length d).
Proof.
  induction s as [|u s IH].
  - left. split; [reflexivity | intros []].
  - destruct IH as [[E H]|(d & n & -> & H & E)].
    + destruct (N.eq_dec u c) as [->|Hne].
      * right. exists [], s. split; [reflexivity|]. split; [exact H|].
        apply (lastIndexOf_last c [] s H).
      * left. split.
        -- cbn. rewrite E. cbn. rewrite (proj2 (N.eqb_neq u c) Hne). reflexivity.
        -- intros [F|F]; [contradiction | exact (H F)].
    + right. exists (u :: d), n. split; [reflexivity|]. split; [exact H|].
      apply (lastIndexOf_last c (u :: d) n H).
Qed.

Lemma substring_prefix (d r : JS.str) :
  JS.substring (d ++ r) 0 (Z.of_nat (List.length d)) = d.
Proof.
  unfold JS.substring. rewrite length_app.
  replace (Z.min (Z.max 0 0) (Z.of_nat (List.length d + List.length r))) with 0%Z
    by lia.
  replace (Z.min (Z.max (Z.of_nat (List.length d)) 0)
             (Z.of_nat (List.length d + List.length r)))
    with (Z.of_nat (List.length d)) by lia.
  replace (Z.min 0 (Z.of_nat (List.length d))) with 0%Z by lia.
  replace (Z.max 0 (Z.of_nat (List.length d))) with (Z.of_nat (List.length d))
    by lia.
  rewrite Z.sub_0_r, Nat2Z.id. cbn [Z.to_nat skipn].
  rewrite firstn_app, firstn_all, Nat.sub_diag. cbn. apply app_nil_r.
Qed.

Lemma substring_none (s : JS.str) (stop : Z) :
  (stop <= 0)%Z -> JS.substring s 0 stop = [].
Proof.
  intro H. unfold JS.substring. cbv zeta.
  replace (Z.max stop 0) with 0%Z by lia.
  change (Z.max 0 0) with 0%Z.
  replace (Z.min 0 (Z.of_nat (List.length s))) with 0%Z by lia.
  reflexivity.
Qed.

Lemma eqb_refl (a : JS.str) : JS.eqb a a = true.
Proof.
  induction a as [|u a IH]; [reflexivity|]. cbn. rewrite N.eqb_refl. exact IH.
Qed.

(** The directory both setters compute: the part before the last slash,
    or else the part before the last backslash; empty when there is none. *)
Lemma directory_of_path (path : JS.str) :
  let dir :=
    JS.or (Some (JS.substring path 0 (JS.lastIndexOf slash path)))
      (Some (JS.substring path 0 (JS.lastIndexOf backslash path))) in
  (forall d n : JS.str,
     path = d ++ slash :: n -> ~ In slash n -> d <> [] -> dir = Some d)
  /\ (forall d n : JS.str,
        path = d ++ backslash :: n -> ~ In backslash n ->
        (JS.lastIndexOf slash path <= 0)%Z ->
        dir = Some d)
  /\ ((JS.lastIndexOf slash path <= 0)%Z ->
      (JS.lastIndexOf backslash path <= 0)%Z ->
      dir = Some []).
Proof.
  cbv zeta. split; [|split].
  - intros d n -> Hn Hd.
    rewrite (lastIndexOf_last slash d n Hn), substring_prefix.
    destruct d; [contradiction | reflexivity].
  - intros d n E Hn Hs.
    rewrite (substring_none path _ Hs). cbn [JS.or].
    rewrite E at 1. rewrite E. rewrite (lastIndexOf_last backslash d n Hn).
    rewrite substring_prefix. reflexivity.
  - intros Hs Hb.
    rewrite (substring_none path _ Hs), (substring_none path _ Hb). reflexivity.
Qed.

Lemma lastIndexOf_leading (c : N) (s : JS.str) :
  ~ In c (List.tl s) -> (JS.lastIndexOf c s <= 0)%Z.
Proof.
  destruct s as [|u s]; cbn; [lia|]. intro H.
  rewrite (lastIndexOf_absent c s H). cbn. destruct (u =? c)%N; lia.
Qed.

Lemma getItem_setItem (st : JS.Storage) (k v : JS.str) :
  JS.getItem (JS.setItem st k v) k = Some v.
Proof. unfold JS.getItem, JS.setItem. rewrite eqb_refl. reflexivity. Qed.

(** ** [lib/paths.ts] *)

(** X15. Remembering a path and asking for the directory gives the part of
    the path before its last slash; for a path with no slash after its
    first unit, the part before its last backslash. The open and the save
    directory behave alike. *)
Theorem last_dir_round_trip (d n : JS.str) (sep : N) (st : JS.Storage) :
  d <> [] ->
  ~ In sep n ->
  sep = slash
  \/ (sep = backslash /\ ~ In slash (List.tl (d ++ sep :: n))) ->
  let path := d ++ sep :: n in
  getLastOpenDir (setLastOpenDir path st) = Some d
  /\ getLastSaveDir (setLastSaveDir path st) = Some d.
Proof.
  intros Hd Hn Hsep path.
  destruct (directory_of_path path) as (Hslash & Hback & _).
  assert (E : JS.or (Some (JS.substring path 0 (JS.lastIndexOf slash path)))
                (Some (JS.substring path 0 (JS.lastIndexOf backslash path)))
              = Some d).
  { destruct Hsep as [->|[-> Hs]].
    - apply (Hslash d n); [reflexivity | exact Hn | exact Hd].
    - apply (Hback d n); [reflexivity | exact Hn|].
      apply lastIndexOf_leading, Hs. }
  unfold getLastOpenDir, setLastOpenDir, getLastSaveDir, setLastSaveDir.
  cbv zeta. rewrite E.
  destruct d as [|u d]; [contradiction|].
  rewrite !getItem_setItem. split; reflexivity.
Qed.

Lemma last_dir_round_trip_witness :
  getLastOpenDir
    (setLastOpenDir (JS.lit "/home/u/notes.md") (fun _ => None))
  = Some (JS.lit "/home/u")
  /\ getLastSaveDir
       (setLastSaveDir (JS.lit "C:\out\notes.pdf") (fun _ => None))
     = Some (JS.lit "C:\out").
Proof.
  split.
  - apply (last_dir_round_trip (JS.lit "/home/u") (JS.lit "notes.md") slash).
    + discriminate.
    + vm_compute. intuition discriminate.
    + left. reflexivity.
  - apply (last_dir_round_trip (JS.lit "C:\out") (JS.lit "notes.pdf") backslash).
    + discriminate.
    + vm_compute. intuition discriminate.
    + right. split; [reflexivity|]. vm_compute. intuition discriminate.
Defined.

(** X16. A path with no slash and no backslash after its first unit names
    no directory: remembering it leaves the storage as it was. *)
Theorem path_without_directory_is_ignored (path : JS.str) (st : JS.Storage) :
  ~ In slash (List.tl path) ->
  ~ In backslash (List.tl path) ->
  setLastOpenDir path st = st /\ setLastSaveDir path st = st.
Proof.
  intros Hs Hb.
  destruct (directory_of_path path) as (_ & _ & Hnone).
  unfold setLastOpenDir, setLastSaveDir. cbv zeta.
  rewrite (Hnone (lastIndexOf_leading slash path Hs)
             (lastIndexOf_leading backslash path Hb)).
  split; reflexivity.
Qed.

Lemma path_without_directory_is_ignored_witness :
  let st := JS.setItem (fun _ => None) OPEN_DIR_KEY (JS.lit "/home/u") in
  setLastOpenDir (JS.lit "/notes.md") st = st
  /\ setLastSaveDir (JS.lit "notes.pdf") st = st.
Proof.
  intro st. split.
  - apply (path_without_directory_is_ignored (JS.lit "/notes.md") st);
      vm_compute; intuition discriminate.
  - apply (path_without_directory_is_ignored (JS.lit "notes.pdf") st);
      vm_compute; intuition discriminate.
Defined.

(** X17. The two directories are kept apart: remembering an open directory
    never changes the save directory, and conversely; and a remembered
    directory that is read back is never the empty string. *)
Theorem open_and_save_dirs_are_separate (path : JS.str) (st : JS.Storage) :
  getLastSaveDir (setLastOpenDir path st) = getLastSaveDir st
  /\ getLastOpenDir (setLastSaveDir path st) = getLastOpenDir st
  /\ getLastOpenDir st <> Some []
  /\ getLastSaveDir st <> Some [].
Proof.
  unfold getLastSaveDir, getLastOpenDir, setLastOpenDir, setLastSaveDir.
  cbv zeta.
  set (dir := JS.or (Some (JS.substring path 0 (JS.lastIndexOf slash path)))
                (Some (JS.substring path 0 (JS.lastIndexOf backslash path)))).
  split; [|split; [|split]].
  - destruct dir as [[|u d]|]; reflexivity.
  - destruct dir as [[|u d]|]; reflexivity.
  - destruct (JS.getItem st OPEN_DIR_KEY) as [[|u d]|]; discriminate.
  - destruct (JS.getItem st SAVE_DIR_KEY) as [[|u d]|]; discriminate.
Qed.

(** ** [getDefaultPdfName] *)

Lemma eqb_eq (a b : JS.str) : JS.eqb a b = true -> a = b.
Proof.
  revert b. induction a as [|u a IH]; intros [|w b] H; try discriminate H.
  - reflexivity.
  - cbn in H. apply andb_true_iff in H. destruct H as [H1 H2].
    apply N.eqb_eq in H1. f_equal; [exact H1 | apply IH, H2].
Qed.

Lemma split_absent (c : N) (n : JS.str) :
  ~ In c n -> JS.split c n = [n].
Proof.
  induction n as [|u n IH]; intro H; [reflexivity|].
  cbn. destruct (u =? c)%N eqn:E.
  - apply N.eqb_eq in E. exfalso. apply H. left. exact E.
  - rewrite IH by (intro; apply H; right; assumption). reflexivity.
Qed.

Lemma split_cut (c : N) (d n : JS.str) :
  ~ In c n ->
  exists pre : list JS.str, pre <> [] /\ JS.split c (d ++ c :: n) = pre ++ [n].
Proof.
  intro H. induction d as [|u d (pre & Hpre & IH)].
  - exists [[]]. split; [discriminate|]. cbn. rewrite N.eqb_refl.
    rewrite (split_absent c n H). reflexivity.
  - cbn [app JS.split]. rewrite IH. destruct (u =? c)%N.
    + exists ([] :: pre). split; [discriminate | reflexivity].
    + destruct pre as [|p ps]; [contradiction|].
      exists ((u :: p) :: ps). split; [discriminate | reflexivity].
Qed.

Lemma pop_last (pre : list JS.str) (n : JS.str) :
  JS.pop (pre ++ [n]) = Some n.
Proof. unfold JS.pop. rewrite map_app. cbn. apply last_last. Qed.

(** The last piece of a path: what follows its last slash, or the path. *)
Lemma pop_split (c : N) (f : JS.str) :
  (~ In c f /\ JS.pop (JS.split c f) = Some f)
  \/ exists d n : JS.str,
       f = d ++ c :: n /\ ~ In c n /\ JS.pop (JS.split c f) = Some n.
Proof.
  destruct (lastIndexOf_cut c f) as [[_ H]|(d & n & -> & H & _)].
  - left. split; [exact H|]. rewrite (split_absent c f H). reflexivity.
  - right. exists d, n. split; [reflexivity|]. split; [exact H|].
    destruct (split_cut c d n H) as (pre & _ & E). rewrite E. apply pop_last.
Qed.

Lemma isMarkdownExtension_units (l : JS.str) :
  isMarkdownExtension l = true -> ~ In dot l /\ ~ In slash l.
Proof.
  unfold isMarkdownExtension. cbv zeta. intro H.
  assert (Hin : forall u : N,
            foldCase u = u ->
            ~ In u (JS.lit "md") -> ~ In u (JS.lit "markdown") ->
            ~ In u (JS.lit "txt") -> ~ In u l).
  { intros u Hu H1 H2 H3 Hl.
    apply (in_map foldCase) in Hl. rewrite Hu in Hl.
    apply orb_true_iff in H. destruct H as [H|H];
      [apply orb_true_iff in H; destruct H as [H|H]|];
      apply eqb_eq in H; rewrite H in Hl; auto. }
  split; apply Hin; try reflexivity; vm_compute; intuition discriminate.
Qed.

Lemma replaceMarkdownExtension_strips (n ext : JS.str) :
  isMarkdownExtension ext = true ->
  replaceMarkdownExtension (n ++ dot :: ext) = n.
Proof.
  intro H. induction n as [|u n IH].
  - cbn [app replaceMarkdownExtension]. rewrite N.eqb_refl, H. reflexivity.
  - cbn [app replaceMarkdownExtension]. rewrite IH.
    destruct (isMarkdownExtension (n ++ dot :: ext)) eqn:E.
    + apply isMarkdownExtension_units in E. exfalso. apply (proj1 E).
      apply in_or_app. right. left. reflexivity.
    + rewrite andb_false_r. reflexivity.
Qed.

Lemma replaceMarkdownExtension_prefix (s : JS.str) :
  exists t : JS.str, s = replaceMarkdownExtension s ++ t.
Proof.
  induction s as [|u s (t & IH)].
  - exists []. reflexivity.
  - cbn. destruct ((u =? dot)%N && isMarkdownExtension s).
    + exists (u :: s). reflexivity.
    + exists t. cbn. f_equal. exact IH.
Qed.

(** [getDefaultPdfName] on a path that does not end with a slash: the
    extension is replaced in the last piece of the path. *)
Lemma getDefaultPdfName_last_piece (f name : JS.str) :
  name <> [] ->
  JS.pop (JS.split slash f) = Some name ->
  getDefaultPdfName (Some f) = replaceMarkdownExtension name ++ JS.lit ".pdf".
Proof.
  intros Hname Hpop. unfold getDefaultPdfName.
  destruct f as [|u f].
  - cbn in Hpop. injection Hpop as <-. contradiction.
  - cbv zeta. rewrite Hpop. destruct name; [contradiction | reflexivity].
Qed.

(** X18. The name proposed for the PDF of a markdown file is the file name
    without its directories and with [.md], [.markdown] or [.txt], in any
    letter case, replaced by [.pdf]; without a current file it is
    [document.pdf]. *)
Theorem default_pdf_name_of_markdown_file (d n ext : JS.str) :
  ~ In slash n ->
  isMarkdownExtension ext = true ->
  getDefaultPdfName (Some (d ++ slash :: n ++ dot :: ext)) = n ++ JS.lit ".pdf"
  /\ getDefaultPdfName (Some (n ++ dot :: ext)) = n ++ JS.lit ".pdf"
  /\ getDefaultPdfName None = JS.lit "document.pdf"
  /\ getDefaultPdfName (Some []) = JS.lit "document.pdf".
Proof.
  intros Hn Hext.
  assert (Hname : ~ In slash (n ++ dot :: ext)).
  { intro H. apply in_app_or in H. destruct H as [H|[H|H]].
    - exact (Hn H).
    - discriminate H.
    - exact (proj2 (isMarkdownExtension_units ext Hext) H). }
  assert (Hne : n ++ dot :: ext <> []) by (destruct n; discriminate).
  split; [|split; [|split; reflexivity]].
  - rewrite (getDefaultPdfName_last_piece _ (n ++ dot :: ext) Hne).
    + rewrite (replaceMarkdownExtension_strips n ext Hext). reflexivity.
    + destruct (split_cut slash d (n ++ dot :: ext) Hname) as (pre & _ & E).
      rewrite E. apply pop_last.
  - rewrite (getDefaultPdfName_last_piece _ (n ++ dot :: ext) Hne).
    + rewrite (replaceMarkdownExtension_strips n ext Hext). reflexivity.
    + rewrite (split_absent slash _ Hname). reflexivity.
Qed.

Lemma default_pdf_name_of_markdown_file_witness :
  getDefaultPdfName (Some (JS.lit "/home/u/notes.v2.MarkDown"))
  = JS.lit "notes.v2.pdf".
Proof.
  apply (default_pdf_name_of_markdown_file (JS.lit "/home/u")
           (JS.lit "notes.v2") (JS.lit "MarkDown")).
  - vm_compute. intuition discriminate.
  - reflexivity.
Defined.

(** X19. Every proposed name ends with [.pdf]. A backslash is no separator
    for the name: for a path without a slash, directories written with
    backslashes stay in the proposed name, and only the extension is
    replaced. *)
Theorem default_pdf_name_keeps_backslashes (f : JS.str) :
  (exists stem : JS.str, getDefaultPdfName (Some f) = stem ++ JS.lit ".pdf")
  /\ (f <> [] -> ~ In slash f ->
      getDefaultPdfName (Some f)
      = replaceMarkdownExtension f ++ JS.lit ".pdf").
Proof.
  split.
  - unfold getDefaultPdfName. destruct f as [|u f].
    + exists (JS.lit "document"). reflexivity.
    + cbv zeta. destruct (JS.or _ _) as [name|].
      * eexists. reflexivity.
      * exists []. reflexivity.
  - intros Hne Hs. apply getDefaultPdfName_last_piece; [exact Hne|].
    rewrite (split_absent slash f Hs). reflexivity.
Qed.

Lemma default_pdf_name_keeps_backslashes_witness :
  getDefaultPdfName (Some (JS.lit "C:\docs\notes.md"))
  = JS.lit "C:\docs\notes.pdf".
Proof.
  rewrite (proj2 (default_pdf_name_keeps_backslashes (JS.lit "C:\docs\notes.md"))).
  - vm_compute. reflexivity.
  - discriminate.
  - vm_compute. intuition discriminate.
Defined.

Lemma getDefaultPdfName_no_slash (currentFile : option JS.str) :
  match currentFile with
  | Some f => List.last f 0%N <> slash
  | None => True
  end ->
  ~ In slash (getDefaultPdfName currentFile).
Proof.
  assert (Hpdf : ~ In slash (JS.lit ".pdf"))
    by (vm_compute; intuition discriminate).
  assert (Hdoc : ~ In slash (JS.lit "document.pdf"))
    by (vm_compute; intuition discriminate).
  destruct currentFile as [f|]; [|intros _; exact Hdoc].
  intro Hlast.
  destruct f as [|u f]; [exact Hdoc|].
  assert (Hpiece : exists name : JS.str,
            name <> [] /\ ~ In slash name
            /\ JS.pop (JS.split slash (u :: f)) = Some name).
  { destruct (pop_split slash (u :: f)) as [[H E]|(d & n & E & H & Ep)].
    - exists (u :: f). split; [discriminate|]. split; assumption.
    - exists n. split; [|split; assumption].
      intros ->. apply Hlast. rewrite E.
      apply last_last. }
  destruct Hpiece as (name & Hne & Hs & Ep).
  rewrite (getDefaultPdfName_last_piece (u :: f) name Hne Ep).
  intro H. apply in_app_or in H. destruct H as [H|H]; [|exact (Hpdf H)].
  destruct (replaceMarkdownExtension_prefix name) as (t & Et).
  apply Hs. rewrite Et. apply in_or_app. left. exact H.
Qed.

(** X20. Saving the PDF under the path the dialog proposes keeps the
    remembered save directory: the proposed path is that directory, a slash
    and a name without slash, provided the current file does not end with a
    slash. *)
Theorem default_path_keeps_save_dir (st : JS.Storage)
    (currentFile : option JS.str) (d : JS.str) :
  getLastSaveDir st = Some d ->
  match currentFile with
  | Some f => List.last f 0%N <> slash
  | None => True
  end ->
  defaultSavePath st currentFile = d ++ slash :: getDefaultPdfName currentFile
  /\ getLastSaveDir (setLastSaveDir (defaultSavePath st currentFile) st)
     = Some d.
Proof.
  intros Hd Hfile.
  assert (Hpath : defaultSavePath st currentFile
                  = d ++ slash :: getDefaultPdfName currentFile)
    by (unfold defaultSavePath; cbv zeta; rewrite Hd; reflexivity).
  split; [exact Hpath|]. rewrite Hpath.
  assert (Hne : d <> []).
  { intros ->. revert Hd. unfold getLastSaveDir.
    destruct (JS.getItem st SAVE_DIR_KEY) as [[|u l]|]; discriminate. }
  assert (Hname := getDefaultPdfName_no_slash currentFile Hfile).
  destruct (directory_of_path (d ++ slash :: getDefaultPdfName currentFile))
    as (Hslash & _).
  unfold getLastSaveDir, setLastSaveDir. cbv zeta.
  rewrite (Hslash d _ eq_refl Hname Hne).
  destruct d as [|u d]; [contradiction|].
  rewrite getItem_setItem. reflexivity.
Qed.

Lemma default_path_keeps_save_dir_witness :
  let st := setLastSaveDir (JS.lit "/out/old.pdf") (fun _ => None) in
  defaultSavePath st (Some (JS.lit "/in/notes.md")) = JS.lit "/out/notes.pdf"
  /\ getLastSaveDir
       (setLastSaveDir (defaultSavePath st (Some (JS.lit "/in/notes.md"))) st)
     = Some (JS.lit "/out").
Proof.
  intro st.
  destruct (default_path_keeps_save_dir st (Some (JS.lit "/in/notes.md"))
              (JS.lit "/out")) as [H1 H2].
  - vm_compute. reflexivity.
  - vm_compute. discriminate.
  - split; [rewrite H1; vm_compute; reflexivity | exact H2].
Defined.

(** * Loading, fitting and turning pages *)

Lemma resetPageEffect_setCurrentPage (s : State) :
  resetPageEffect s = s \/ resetPageEffect s = setCurrentPage 1 s.
Proof.
  unfold resetPageEffect.
  destruct ((numPages s <? currentPage s) && (0 <? numPages s))%Z; auto.
Qed.

(** X21. Supplying a document and letting the requested frame run fits the
    document: scale and translate are the fit of the new page in the
    viewport, whatever the view was, and the request is used up, so a
    further such frame changes nothing. *)
Theorem document_load_fits (Math_pow : Q -> Q -> Q) (s : State)
    (d : SvgDocument) (fit : Fit) :
  getFitValues (Some d) (viewport s) = Some fit ->
  let s1 := run Math_pow [DocumentChange (Some d); FitFrame] s in
  svgDoc s1 = Some d
  /\ scale s1 = fit_scale fit
  /\ translate s1 = mkTranslate (fit_x fit) (fit_y fit)
  /\ fitScheduled s1 = false
  /\ handle Math_pow FitFrame s1 = s1.
Proof.
  intros Hfit s1.
  assert (E1 : exists p : Z,
            handle Math_pow (DocumentChange (Some d)) s
            = setCurrentPage p (setFitScheduled true (setSvgDoc (Some d) s))).
  { unfold handle. cbn [dispatch]. unfold fitOnLoadEffect. cbn.
    destruct (resetPageEffect_setCurrentPage
                (setFitScheduled true (setSvgDoc (Some d) s))) as [E|E];
      rewrite E; eexists; [|reflexivity].
    destruct s; reflexivity. }
  destruct E1 as (p & E1).
  assert (E2 : exists q : Z,
            s1 = setCurrentPage q
                   (setTranslate (mkTranslate (fit_x fit) (fit_y fit))
                      (setScale (fit_scale fit)
                         (setFitScheduled false (setSvgDoc (Some d) s))))).
  { unfold s1, run. cbn [fold_left]. rewrite E1.
    unfold handle at 1. cbn [dispatch].
    change (fitScheduled (setCurrentPage p
              (setFitScheduled true (setSvgDoc (Some d) s)))) with true.
    cbv iota. unfold fitToViewport.
    change (getFitValues (svgDoc _) (viewport _))
      with (getFitValues (Some d) (viewport s)).
    rewrite Hfit.
    match goal with
    | |- exists q, resetPageEffect ?t = _ =>
        destruct (resetPageEffect_setCurrentPage t) as [E|E]; rewrite E
    end; eexists; reflexivity. }
  destruct E2 as (q & E2).
  assert (Hidem : resetPageEffect s1 = s1).
  { unfold s1, run. cbn [fold_left]. unfold handle at 1.
    apply resetPageEffect_idempotent. }
  assert (Hsched : fitScheduled s1 = false) by (rewrite E2; reflexivity).
  assert (Hframe : handle Math_pow FitFrame s1 = s1).
  { unfold handle. cbn [dispatch]. rewrite Hsched. exact Hidem. }
  split; [rewrite E2; reflexivity|].
  split; [rewrite E2; reflexivity|].
  split; [rewrite E2; reflexivity|].
  split; [exact Hsched | exact Hframe].
Qed.

Lemma document_load_fits_witness :
  let s1 := run powFloor [DocumentChange (Some letterDoc); FitFrame] zoomedIn in
  scale s1 == 23 # 33 /\ fitScheduled s1 = false.
Proof.
  intro s1.
  assert (H : exists fit, getFitValues (Some letterDoc) (viewport zoomedIn)
                          = Some fit /\ fit_scale fit == 23 # 33).
  { eexists. split; [vm_compute; reflexivity | vm_compute; reflexivity]. }
  destruct H as (fit & Hfit & Hs).
  destruct (document_load_fits powFloor zoomedIn letterDoc fit Hfit)
    as (_ & H1 & _ & H2 & _).
  fold s1 in H1, H2. split; [rewrite H1; exact Hs | exact H2].
Defined.

(** X22. The animated fit ends where the immediate fit is: after the fit
    button and a frame at or after the end of the animation, the viewer is
    in fit mode, no animation is pending, and scale and translate are those
    [fitToViewport] commits. *)
Theorem animated_fit_ends_at_fit (Math_pow : Q -> Q -> Q) (s : State)
    (t0 t1 : Q) :
  isFitMode s = false ->
  getFitValues (svgDoc s) (viewport s) <> None ->
  t0 + ZOOM_ANIMATION_DURATION <= t1 ->
  let s1 := run Math_pow [ClickFit t0; AnimationFrame t1] s in
  isFitMode s1 = true
  /\ zoomAnimation s1 = None
  /\ scale s1 == scale (fitToViewport s)
  /\ sameTranslate (translate s1) (translate (fitToViewport s)).
Proof.
  intros Hmode Hfit Ht s1.
  destruct (getFitValues (svgDoc s) (viewport s)) as [fit|] eqn:E;
    [|contradiction].
  pose (a := mkAnimation (scale s) (x (translate s)) (y (translate s)) t0
               (fit_scale fit) (fit_x fit) (fit_y fit) ZOOM_ANIMATION_DURATION).
  assert (Ea : exists p : Z,
            handle Math_pow (ClickFit t0) s
            = setCurrentPage p (setZoomAnimation (Some a) (setIsFitMode true s))).
  { unfold handle. cbn [dispatch]. rewrite Hmode. unfold handleFit.
    change (getFitValues (svgDoc _) (viewport _))
      with (getFitValues (svgDoc s) (viewport s)).
    rewrite E. unfold animateZoom.
    match goal with
    | |- exists p, resetPageEffect ?t = _ =>
        destruct (resetPageEffect_setCurrentPage t) as [F|F]; rewrite F
    end; eexists; [|reflexivity].
    destruct s; reflexivity. }
  destruct Ea as (p & Ea).
  set (sa := setCurrentPage p (setZoomAnimation (Some a) (setIsFitMode true s)))
    in *.
  assert (Hlast := animate_last_frame a t1 sa).
  cbv zeta in Hlast.
  destruct Hlast as (H1 & H2 & H3 & H4); [reflexivity | exact Ht |].
  assert (Hfm : isFitMode (animate a t1 sa) = true)
    by (unfold animate; cbv zeta; destruct (Qltb _ 1); reflexivity).
  assert (Es1 : s1 = resetPageEffect (animate a t1 sa)).
  { unfold s1, run. cbn [fold_left]. rewrite Ea. reflexivity. }
  assert (Efit : fitToViewport s
                 = setTranslate (mkTranslate (fit_x fit) (fit_y fit))
                     (setScale (fit_scale fit) s))
    by (unfold fitToViewport; rewrite E; reflexivity).
  rewrite Es1, Efit.
  destruct (resetPageEffect_setCurrentPage (animate a t1 sa)) as [F|F];
    rewrite F; cbn [isFitMode zoomAnimation scale translate setCurrentPage
                    setTranslate setScale];
    (split; [exact Hfm|]); (split; [exact H4|]); (split; [exact H1|]);
    split; assumption.
Qed.

Lemma animated_fit_ends_at_fit_witness :
  let s1 := run powFloor [ClickFit 6000; AnimationFrame 6200] zoomedIn in
  isFitMode zoomedIn = false
  /\ isFitMode s1 = true
  /\ scale s1 == 23 # 33.
Proof.
  intro s1.
  assert (Hm : isFitMode zoomedIn = false) by (vm_compute; reflexivity).
  destruct (animated_fit_ends_at_fit powFloor zoomedIn 6000 6200 Hm)
    as (H1 & _ & H2 & _).
  - vm_compute. discriminate.
  - vm_compute. discriminate.
  - split; [exact Hm|]. split; [exact H1|].
    fold s1 in H2. rewrite H2. vm_compute. reflexivity.
Defined.

(** X23. A page turn by continuous scroll on a page taller than the
    viewport shows the new page from its leading edge: after a turn forward
    the top of the page is at [EDGE_PADDING], after a turn back its bottom
    is [EDGE_PADDING] above the bottom of the viewport. A page turn by a
    discrete wheel click leaves the translate as it was. *)
Theorem page_turn_repositions (Math_pow : Q -> Q -> Q) (e : WheelEvent.t)
    (rect : DOMRect) (now : Z) (s : State) (doc : SvgDocument) :
  routesToPageTurn e s = true ->
  svgDoc s = Some doc ->
  height (viewport s) < height_pt doc * scale s ->
  let s1 := handleWheel Math_pow e rect now s in
  (isDiscrete e = false ->
   ((currentPage s < currentPage s1)%Z -> y (translate s1) == EDGE_PADDING)
   /\ ((currentPage s1 < currentPage s)%Z ->
       y (translate s1)
       == height (viewport s) - height_pt doc * scale s - EDGE_PADDING))
  /\ (isDiscrete e = true -> translate s1 = translate s).
Proof.
  intros Hr Hdoc Hover s1. split; intro Hd.
  - assert (E := handleWheel_continuous Math_pow e rect now s Hr Hd).
    fold s1 in E. cbv zeta in E. rewrite Hdoc in E.
    rewrite (proj2 (Qltb_true _ _) Hover) in E.
    set (pending := pageChangeAccumulator s + WheelEvent.deltaY e) in *.
    assert (Hsame : currentPage s1 = currentPage s ->
              ((currentPage s < currentPage s1)%Z ->
               y (translate s1) == EDGE_PADDING)
              /\ ((currentPage s1 < currentPage s)%Z ->
                  y (translate s1)
                  == height (viewport s) - height_pt doc * scale s
                     - EDGE_PADDING))
      by (intro F; rewrite F; split; intro; lia).
    destruct (Qleb PAGE_CHANGE_THRESHOLD (Qabs pending)
              && (PAGE_CHANGE_COOLDOWN <? now - lastPageChangeTime s)%Z);
      [|apply Hsame; rewrite E; reflexivity].
    destruct ((1 <=? currentPage s + direction pending)
              && (currentPage s + direction pending <=? pagesLengthOr1 s))%Z;
      [|apply Hsame; rewrite E; reflexivity].
    assert (Hlo : height (viewport s) - height_pt doc * scale s - EDGE_PADDING
                  <= EDGE_PADDING) by (unfold EDGE_PADDING; lra).
    unfold direction in E.
    destruct (Qltb 0 pending); cbn [Z.ltb Z.compare] in E; rewrite E;
      cbn [currentPage translate setTranslate setCurrentPage];
      unfold clampTranslate; cbn [y];
      rewrite (proj2 (Qleb_false _ _) Hover);
      (split; intro Hp; [|]); try lia.
    + apply Qmin_max_fixed. split; [exact Hlo | apply Qle_refl].
    + apply Qmin_max_fixed. split; [apply Qle_refl | exact Hlo].
  - unfold s1. rewrite (handleWheel_discrete Math_pow e rect now s Hr Hd).
    cbv zeta. split_conditionals; reflexivity.
Qed.

Lemma page_turn_repositions_witness :
  let atBottom := handleWheel powFloor (scrollBy 0 5000 0) originRect 5000 zoomedIn in
  let s1 := handleWheel powFloor (scrollBy 0 25 0) originRect 6000 atBottom in
  y (translate atBottom) < 0
  /\ currentPage atBottom = 1%Z
  /\ currentPage s1 = 2%Z
  /\ y (translate s1) == EDGE_PADDING.
Proof.
  intros atBottom s1.
  assert (Hdoc : svgDoc atBottom = Some letterDoc) by (vm_compute; reflexivity).
  assert (Hr : routesToPageTurn (scrollBy 0 25 0) atBottom = true)
    by (vm_compute; reflexivity).
  assert (Hover : height (viewport atBottom) < height_pt letterDoc * scale atBottom)
    by (vm_compute; reflexivity).
  destruct (page_turn_repositions powFloor (scrollBy 0 25 0) originRect 6000
              atBottom letterDoc Hr Hdoc Hover) as [Hcont _].
  destruct (Hcont eq_refl) as [Hforward _].
  split; [vm_compute; reflexivity|].
  split; [vm_compute; reflexivity|].
  split; [vm_compute; reflexivity|].
  apply Hforward. vm_compute. reflexivity.
Defined.
